(** * Asset Localization Checker: the metadata reconciliation, verified

    A shallow embedding of [src/components/AssetLocalizationChecker.tsx]
    (the current, Map-based component) and of the earlier list-based
    revision of the same component, together with the properties of the
    reconciliation of field-level and asset-level alt/title text. The
    callbacks of the component, the entry points of the plugin
    ([main.tsx]), the path helper [getMaybeLocalizedValue] and the table
    revision of the component are embedded as well.

    The component is embedded in two layers. [AssetLocalizationChecker]
    takes the context with the field value already destructured;
    [Host.AssetLocalizationChecker] takes the context as the host hands it
    over, where [formValues[fieldPath]] may be [null] or [undefined], and
    says when the render throws. Locale codes are taken to be language
    tags, on which [Intl.DisplayNames] does not throw.

    Conventions of the embedding:
    - a JavaScript value of type [string | null | undefined] is an
      [option string]; [None] stands for both nullish values, which the
      source never tells apart ([??], [?.] and [!] treat them alike);
    - a JavaScript object used as a dictionary ([default_field_metadata])
      and the [Map] built by the component are [gmap string _]: the source
      only reads them by key and writes them by key;
    - an array is a [list]; [push] appends at the end;
    - [useMemo] is modelled by the function it caches, evaluated on the
      inputs of the render at hand. *)

From Stdlib Require Import Ascii.
From stdpp Require Import base option list strings gmap.

Open Scope string_scope.
Open Scope list_scope.
Open Scope nat_scope.

(** ** JavaScript value semantics used by the component *)

Module Js.

(** [!!v] for [v : string | null | undefined]: the empty string and the
    nullish values are falsy. *)
Definition truthy (v : option string) : bool :=
  match v with
  | Some s => negb (String.eqb s "")
  | None => false
  end.

(** [a ?? b]: the left operand unless it is nullish. *)
Definition coalesce {A : Type} (a b : option A) : option A :=
  match a with
  | Some _ => a
  | None => b
  end.

(** [a ?? d] with a non-nullable right operand. *)
Definition coalesce_or {A : Type} (a : option A) (d : A) : A :=
  match a with
  | Some x => x
  | None => d
  end.

End Js.

Infix "??" := Js.coalesce (at level 61, left associativity).
Infix "??!" := Js.coalesce_or (at level 62, left associativity).

(** ** Data model *)

(** One entry of [Upload.default_field_metadata]: the fields the component
    reads. A property that is not there reads as [undefined]. *)
Record FieldMetadata := {
  fm_alt : option string;
  fm_title : option string;
}.

(** The asset record returned by [client.uploads.find]. *)
Record Upload := {
  filename : option string;
  default_field_metadata : option (gmap string FieldMetadata);
}.

(** [formValues[fieldPath] as FileFieldValue]. *)
Record FileFieldValue := {
  upload_id : string;
  alt : option string;
  title : option string;
}.

(** [AltTitleValidators.required_alt_title]. *)
Record RequiredAltTitle := {
  req_title : bool;
  req_alt : bool;
}.

(** The value type of [MetadataByLocale = Map<string, {alt, title}>]. *)
Record AltTitle := {
  at_alt : option string;
  at_title : option string;
}.

(** ** Reconciliation, current revision *)

(** State of the loop of the first [useMemo]: [_meta], [_alt], [_title]. *)
Record Aggregates := {
  assetLevelMetadataByLocale : gmap string AltTitle;
  localesMissingAlts : list string;
  localesMissingTitles : list string;
}.

Definition no_aggregates : Aggregates :=
  {| assetLevelMetadataByLocale := ∅;
     localesMissingAlts := [];
     localesMissingTitles := [] |}.

(** [metadata[locale]?.alt ?? null] and [metadata[locale]?.title ?? null]. *)
Definition asset_alt (metadata : gmap string FieldMetadata) (locale : string)
  : option string :=
  (metadata !! locale) ≫= fm_alt.

Definition asset_title (metadata : gmap string FieldMetadata) (locale : string)
  : option string :=
  (metadata !! locale) ≫= fm_title.

(** [arr.push(x)] guarded by [if (c)]. *)
Definition push_if (c : bool) (x : string) (arr : list string) : list string :=
  if c then arr ++ [x] else arr.

(** One iteration of [for (const locale of localesInThisRecord)]. *)
Definition aggregate_step (metadata : gmap string FieldMetadata)
    (acc : Aggregates) (locale : string) : Aggregates :=
  let alt := asset_alt metadata locale in
  let title := asset_title metadata locale in
  {| assetLevelMetadataByLocale :=
       <[locale := {| at_alt := alt; at_title := title |}]>
         (assetLevelMetadataByLocale acc);
     localesMissingAlts :=
       push_if (negb (Js.truthy alt)) locale (localesMissingAlts acc);
     localesMissingTitles :=
       push_if (negb (Js.truthy title)) locale (localesMissingTitles acc) |}.

(** The body of the first [useMemo]: the loop runs only when both
    [metadata] and [localesInThisRecord] are there. *)
Definition aggregate (metadata : option (gmap string FieldMetadata))
    (localesInThisRecord : option (list string)) : Aggregates :=
  match metadata, localesInThisRecord with
  | Some md, Some locales => fold_left (aggregate_step md) locales no_aggregates
  | _, _ => no_aggregates
  end.

(** Result of the second [useMemo]: the look-up of the current locale. *)
Record CurrentLocale := {
  isMissingAlt : bool;
  isMissingTitle : bool;
  actualAlt : string;
  actualTitle : string;
}.

Definition current_locale (byLocale : gmap string AltTitle)
    (locale : string) (fieldLevelAlt fieldLevelTitle : option string)
  : CurrentLocale :=
  match byLocale !! locale with
  | None =>
      {| isMissingAlt := negb (Js.truthy fieldLevelAlt);
         isMissingTitle := negb (Js.truthy fieldLevelTitle);
         actualAlt := fieldLevelAlt ??! "";
         actualTitle := fieldLevelTitle ??! "" |}
  | Some _meta =>
      {| isMissingAlt :=
           negb (Js.truthy fieldLevelAlt) && negb (Js.truthy (at_alt _meta));
         isMissingTitle :=
           negb (Js.truthy fieldLevelTitle) && negb (Js.truthy (at_title _meta));
         actualAlt := fieldLevelAlt ?? at_alt _meta ??! "";
         actualTitle := fieldLevelTitle ?? at_title _meta ??! "" |}
  end.

(** ** The component *)

(** The part of [RenderFieldExtensionCtx] the component reads.
    [formValues] is represented by the two entries that are read from it:
    [formValues.internalLocales] and [formValues[fieldPath]]. *)
Record Ctx := {
  internalLocales : option (list string);
  imageField : FileFieldValue;
  currentUserAccessToken : option string;
  label : string;
  validators : option RequiredAltTitle;
  localized : bool;
  environment : option string;
  locale : string;
}.

(** The two [useState] cells, and the dependency [[upload_id]] remembered
    for the fetch effect. *)
Record Hooks := {
  assetData : option Upload;
  siteLocales : list string;
  fetchedFor : string;
}.

(** Calls made to the host and to the remote client. *)
Inductive Effect :=
  | Alert (message : string)
  | GetSettings
  | UploadsFind (apiToken : string) (env : option string) (id : string).

(** What [currentLocaleChecker] renders: which of its four blocks, and the
    values shown in it. [UsingFieldLevel] carries whether the warning about
    the override is shown; [SetInAsset] the file name, or ["image"]. *)
Inductive CheckerLine :=
  | HasNoRequired (name : string)
  | HasNoOptional (name : string)
  | UsingFieldLevel (name value : string) (overrideWarning : bool)
  | SetInAsset (name source value : string).

Record MainView := {
  titleLine : CheckerLine;
  altLine : CheckerLine;
  missingAltSection : option (list string);
  missingTitleSection : option (list string);
  overrideSection : option (list (string * string));
}.

Inductive View :=
  | TokenError (message : string)
  | Loading
  | Main (sections : MainView).

Record Rendered := {
  view : View;
  effects : list Effect;
  hooks : option Hooks;
}.

Definition token_error : string :=
  "Asset Localization Checker error: No `currentUserAccessToken` provided. Please check your plugin settings.".

Definition token_alert : string :=
  "The Asset Localization Checker plugin does not have access to your user token. Please check the plugin settings.".

(** [typedValidators?.required_alt_title?.title] and [...?.alt], under [!!]. *)
Definition isTitleRequired (ctx : Ctx) : bool :=
  match validators ctx with Some v => req_title v | None => false end.

Definition isAltRequired (ctx : Ctx) : bool :=
  match validators ctx with Some v => req_alt v | None => false end.

(** [assetData?.default_field_metadata ?? null]. *)
Definition metadata_of (assetData : option Upload)
  : option (gmap string FieldMetadata) :=
  assetData ≫= default_field_metadata.

(** [assetData && metadata && localesInThisRecord]: objects and arrays are
    truthy, the nullish values are not. *)
Definition isReady (assetData : option Upload)
    (localesInThisRecord : option (list string)) : bool :=
  bool_decide (is_Some assetData)
  && bool_decide (is_Some (metadata_of assetData))
  && bool_decide (is_Some localesInThisRecord).

Definition currentLocaleChecker (ctx : Ctx) (h : Hooks)
    (name value : string) (isMissing isRequired isFieldLevel : bool)
  : CheckerLine :=
  let defaultLocale := head (siteLocales h) in
  let source :=
    match assetData h ≫= filename with
    | Some f => if Js.truthy (Some f) then f else "image"
    | None => "image"
    end in
  if isMissing then
    if isRequired then HasNoRequired name else HasNoOptional name
  else if isFieldLevel then
    UsingFieldLevel name value
      (negb (localized ctx)
       && negb (bool_decide (Some (locale ctx) = defaultLocale)))
  else SetInAsset name source value.

(** [isFieldLevel: !!fieldLevelAlt] and [isFieldLevel: !!fieldLevelTitle],
    the override indicator handed to [currentLocaleChecker]. *)
Definition isFieldLevel (fieldLevel : option string) : bool :=
  Js.truthy fieldLevel.

(** The sections rendered under [length >= 1]. *)
Definition missing_section (locales : list string) : option (list string) :=
  if bool_decide (1 ≤ length locales) then Some locales else None.

(** The items of the override section: [{fieldLevelAlt && <li>...}]. *)
Definition override_item (name : string) (v : option string)
  : list (string * string) :=
  if Js.truthy v then [(name, v ??! "")] else [].

Definition override_section (fieldLevelAlt fieldLevelTitle : option string)
  : option (list (string * string)) :=
  if Js.truthy fieldLevelAlt || Js.truthy fieldLevelTitle
  then Some (override_item "Alt" fieldLevelAlt
             ++ override_item "Title" fieldLevelTitle)
  else None.

(** The hook cells of this render: those of the previous render, or the
    initial values of [useState] on mount. *)
Definition use_state (ctx : Ctx) (prev : option Hooks) : Hooks :=
  match prev with
  | Some h => h
  | None => {| assetData := None;
               siteLocales := [locale ctx];
               fetchedFor := upload_id (imageField ctx) |}
  end.

(** The two [useEffect]s: both run on mount, the fetch again whenever
    [upload_id] changed since the previous render. *)
Definition use_effects (ctx : Ctx) (token : string) (prev : option Hooks)
  : list Effect :=
  let env := if Js.truthy (environment ctx) then environment ctx else None in
  let find := UploadsFind token env (upload_id (imageField ctx)) in
  match prev with
  | None => [GetSettings; find]
  | Some h =>
      if String.eqb (fetchedFor h) (upload_id (imageField ctx))
      then [] else [find]
  end.

(** Everything the render computes between the hooks and the JSX. *)
Record Reconciled := {
  aggregates : Aggregates;
  current : CurrentLocale;
  ready : bool;
}.

Definition reconcile (ctx : Ctx) (h : Hooks) : Reconciled :=
  let fieldLevelAlt := alt (imageField ctx) in
  let fieldLevelTitle := title (imageField ctx) in
  let metadata := metadata_of (assetData h) in
  let localesInThisRecord := internalLocales ctx in
  let agg := aggregate metadata localesInThisRecord in
  {| aggregates := agg;
     current := current_locale (assetLevelMetadataByLocale agg) (locale ctx)
                  fieldLevelAlt fieldLevelTitle;
     ready := isReady (assetData h) localesInThisRecord |}.

Definition main_view (ctx : Ctx) (h : Hooks) (r : Reconciled) : MainView :=
  let fieldLevelAlt := alt (imageField ctx) in
  let fieldLevelTitle := title (imageField ctx) in
  {| titleLine :=
       currentLocaleChecker ctx h "title"
         (actualTitle (current r)) (isMissingTitle (current r))
         (isTitleRequired ctx) (isFieldLevel fieldLevelTitle);
     altLine :=
       currentLocaleChecker ctx h "alt text"
         (actualAlt (current r)) (isMissingAlt (current r))
         (isAltRequired ctx) (isFieldLevel fieldLevelAlt);
     missingAltSection :=
       missing_section (localesMissingAlts (aggregates r));
     missingTitleSection :=
       missing_section (localesMissingTitles (aggregates r));
     overrideSection := override_section fieldLevelAlt fieldLevelTitle |}.

(** The early exit taken when there is no token: the alert, the inline
    error, and no hook is reached. *)
Definition no_token (prev : option Hooks) : Rendered :=
  {| view := TokenError token_error;
     effects := [Alert token_alert];
     hooks := prev |}.

(** One render of the component on a context whose field holds a value:
    [imageField] is [formValues[fieldPath]] as line 73 destructures it.
    What the component does when that entry is [null] or [undefined] is
    said by [Host.AssetLocalizationChecker] below. [prev] is [None] on
    mount. *)
Definition AssetLocalizationChecker (ctx : Ctx) (prev : option Hooks)
  : Rendered :=
  match currentUserAccessToken ctx with
  | Some token =>
      if Js.truthy (Some token) then
        let h := use_state ctx prev in
        let r := reconcile ctx h in
        {| view := if ready r then Main (main_view ctx h r) else Loading;
           effects := use_effects ctx token prev;
           hooks := Some {| assetData := assetData h;
                            siteLocales := siteLocales h;
                            fetchedFor := upload_id (imageField ctx) |} |}
      else no_token prev
  | None => no_token prev
  end.

(** ** The component, on the context as the host hands it over *)

(** [RenderFieldExtensionCtx] before anything is read from
    [formValues[fieldPath]]: that entry is [null] for a file field without
    an asset and [undefined] when [fieldPath] is not a key of [formValues]
    (the path of a localized field); [rf_fieldValue] is [None] for both. *)
Record RenderFieldExtensionCtx := {
  rf_internalLocales : option (list string);
  rf_fieldValue : option FileFieldValue;
  rf_currentUserAccessToken : option string;
  rf_label : string;
  rf_validators : option RequiredAltTitle;
  rf_localized : bool;
  rf_environment : option string;
  rf_locale : string;
}.

(** [const { upload_id, alt, title } = imageField]: [None] when it throws,
    the value being [null] or [undefined]. *)
Definition destructure (hc : RenderFieldExtensionCtx) : option Ctx :=
  match rf_fieldValue hc with
  | Some field =>
      Some {| internalLocales := rf_internalLocales hc;
              imageField := field;
              currentUserAccessToken := rf_currentUserAccessToken hc;
              label := rf_label hc;
              validators := rf_validators hc;
              localized := rf_localized hc;
              environment := rf_environment hc;
              locale := rf_locale hc |}
  | None => None
  end.

(** A render returns what it rendered, or throws. *)
Inductive Outcome :=
  | Threw
  | Returned (r : Rendered).

Module Host.

(** One render of the component: the check of the token comes first, the
    destructuring of the field value next, before the readiness test; a
    render that throws makes no call, its effects not being run. *)
Definition AssetLocalizationChecker (hc : RenderFieldExtensionCtx)
    (prev : option Hooks) : Outcome :=
  if negb (Js.truthy (rf_currentUserAccessToken hc))
  then Returned (no_token prev)
  else match destructure hc with
       | Some ctx => Returned (AssetLocalizationChecker ctx prev)
       | None => Threw
       end.

End Host.

(** ** Reconciliation, earlier list-based revision *)

Module Earlier.

Record MetadataByLocale := {
  locale : string;
  alt : option string;
  title : option string;
}.

Definition metadataByLocale (metadata : option (gmap string FieldMetadata))
    (locales : option (list string)) : list MetadataByLocale :=
  match metadata, locales with
  | Some md, Some ls =>
      flat_map (fun loc => [ {| locale := loc;
                                alt := asset_alt md loc;
                                title := asset_title md loc |} ]) ls
  | _, _ => []
  end.

Definition missingAlts (byLocale : list MetadataByLocale)
  : list MetadataByLocale :=
  List.filter (fun l => negb (Js.truthy (alt l))) byLocale.

Definition missingTitles (byLocale : list MetadataByLocale)
  : list MetadataByLocale :=
  List.filter (fun l => negb (Js.truthy (title l))) byLocale.

End Earlier.

(** ** Inputs of the scenarios *)

(** Asset metadata [{en: {alt: "cat"}, fr: {}}]. *)
Definition md_cat : gmap string FieldMetadata :=
  <["fr" := {| fm_alt := None; fm_title := None |}]>
    (<["en" := {| fm_alt := Some "cat"; fm_title := None |}]> ∅).

Definition asset_cat : Upload :=
  {| filename := Some "cat.jpg"; default_field_metadata := Some md_cat |}.

Definition loaded_cat : Hooks :=
  {| assetData := Some asset_cat; siteLocales := ["en"; "fr"]; fetchedFor := "42" |}.

(** A context for record locales [["en", "fr"]], with the given current
    locale, field-level alt and access token. *)
Definition ctx_en_fr (loc : string) (fieldLevelAlt token : option string) : Ctx :=
  {| internalLocales := Some ["en"; "fr"];
     imageField := {| upload_id := "42"; alt := fieldLevelAlt; title := None |};
     currentUserAccessToken := token;
     label := "Hero image";
     validators := None;
     localized := false;
     environment := None;
     locale := loc |}.

(** The same, as the host hands it over, with the given field value. *)
Definition host_en_fr (loc : string) (value : option FileFieldValue)
    (token : option string) : RenderFieldExtensionCtx :=
  {| rf_internalLocales := Some ["en"; "fr"];
     rf_fieldValue := value;
     rf_currentUserAccessToken := token;
     rf_label := "Hero image";
     rf_validators := None;
     rf_localized := false;
     rf_environment := None;
     rf_locale := loc |}.

(** A field value without field-level text. *)
Definition plain_field : FileFieldValue :=
  {| upload_id := "42"; alt := None; title := None |}.

(** The same inputs with other validator flags. *)
Definition with_validators (v : option RequiredAltTitle) (ctx : Ctx) : Ctx :=
  {| internalLocales := internalLocales ctx;
     imageField := imageField ctx;
     currentUserAccessToken := currentUserAccessToken ctx;
     label := label ctx;
     validators := v;
     localized := localized ctx;
     environment := environment ctx;
     locale := locale ctx |}.

(** Asset metadata [{en: {alt: "cat"}}]: no entry for [fr]. *)
Definition md_en_only : gmap string FieldMetadata :=
  <["en" := {| fm_alt := Some "cat"; fm_title := None |}]> ∅.

Definition loaded_en_only : Hooks :=
  {| assetData := Some {| filename := Some "cat.jpg";
                          default_field_metadata := Some md_en_only |};
     siteLocales := ["en"; "fr"];
     fetchedFor := "42" |}.

(** The asset of the scenarios, seen from a record whose only locale is
    [fr] while the current locale is [en]. *)
Definition ctx_fr_only_at_en : Ctx :=
  {| internalLocales := Some ["fr"];
     imageField := {| upload_id := "42"; alt := None; title := None |};
     currentUserAccessToken := Some "t";
     label := "Hero image";
     validators := None;
     localized := false;
     environment := None;
     locale := "en" |}.

(** ** The contract as the specification words it *)

(** The contract in the words of the specification, for a given notion of
    a field-level value being present: the effective text is the
    field-level value if present, else the asset-level value of the locale,
    else empty; the override indicator is true exactly when a field-level
    value is present. *)
Definition spec_effective (present : option string → bool)
    (fieldLevel assetLevel : option string) : string :=
  if present fieldLevel then fieldLevel ??! "" else assetLevel ??! "".

Definition spec_isOverridden (present : option string → bool)
    (fieldLevel : option string) : bool :=
  present fieldLevel.

(** Presence as [??] judges it. *)
Definition not_nullish (v : option string) : bool :=
  match v with Some _ => true | None => false end.

(** ** The callbacks of the component *)

(** Calls made by the callbacks, in the order they are made. *)
Inductive HostCall :=
  | Call (e : Effect)
  | ConsoleError (error : string)
  | EditUpload (id : string)
  | EditUploadMetadata (field : FileFieldValue)
  | NavigateTo (path : string)
  | ScrollToField (path : string).

(** How [client.uploads.find] settles: with an asset, with a nullish value,
    or by rejecting; [error] is the text of what was thrown, as
    [`${error}`] renders it. *)
Inductive FindResult :=
  | Found (asset : Upload)
  | FoundNothing
  | Rejected (error : string).

(** [client.uploads.find(upload_id)] on the client built by [buildClient]. *)
Definition client_find (ctx : Ctx) (token : string) : Effect :=
  UploadsFind token
    (if Js.truthy (environment ctx) then environment ctx else None)
    (upload_id (imageField ctx)).

(** [`${error}`] for the [Error] thrown when the asset is nullish. *)
Definition not_retrieved (id : string) : string :=
  "Error: Could not retrieve asset ID " +:+ id
  +:+ ". Please check your console log or ask a developer for help.".

(** What [catch (error)] does. *)
Definition report (error : string) : list HostCall :=
  [ConsoleError error; Call (Alert ("Error: " +:+ error))].

(** [fetchAsset], given how the look-up settles. *)
Definition fetchAsset (ctx : Ctx) (token : string) (res : FindResult)
    (h : Hooks) : Hooks * list HostCall :=
  match res with
  | Found asset =>
      ({| assetData := Some asset;
          siteLocales := siteLocales h;
          fetchedFor := fetchedFor h |},
       [Call (client_find ctx token)])
  | FoundNothing =>
      (h, Call (client_find ctx token)
            :: report (not_retrieved (upload_id (imageField ctx))))
  | Rejected error => (h, Call (client_find ctx token) :: report error)
  end.

(** [editImage], given what [ctx.editUpload] resolves to. *)
Definition editImage (ctx : Ctx) (token : string)
    (uploadResult : option Upload) (res : FindResult) (h : Hooks)
  : Hooks * list HostCall :=
  match uploadResult with
  | Some _ =>
      let (h', calls) := fetchAsset ctx token res h in
      (h', EditUpload (upload_id (imageField ctx)) :: calls)
  | None => (h, [EditUpload (upload_id (imageField ctx))])
  end.

(** [editFieldMetadata], given what [ctx.editUploadMetadata] resolves to. *)
Definition editFieldMetadata (ctx : Ctx) (token : string)
    (editResult : option FileFieldValue) (res : FindResult) (h : Hooks)
  : Hooks * list HostCall :=
  match editResult with
  | Some _ =>
      let (h', calls) := fetchAsset ctx token res h in
      (h', EditUploadMetadata (imageField ctx) :: calls)
  | None => (h, [EditUploadMetadata (imageField ctx)])
  end.

(** [navigateToField]. *)
Definition navigateToField (fieldPath : string) : list HostCall :=
  [NavigateTo "#"; NavigateTo ("#fieldPath=" +:+ fieldPath);
   ScrollToField fieldPath].

(** [setSiteLocales(locales)], when [ctx.getSettings] has resolved. *)
Definition settings_loaded (locales : list string) (h : Hooks) : Hooks :=
  {| assetData := assetData h;
     siteLocales := locales;
     fetchedFor := fetchedFor h |}.

(** What can happen to the hook state of a mounted component, the context
    staying the same: a look-up settles, an editor closes (and the look-up
    it may trigger settles), the settings arrive, or the component renders
    again. *)
Inductive step (ctx : Ctx) (token : string) : Hooks → Hooks → Prop :=
  | step_fetchAsset res h :
      step ctx token h (fetchAsset ctx token res h).1
  | step_editImage uploadResult res h :
      step ctx token h (editImage ctx token uploadResult res h).1
  | step_editFieldMetadata editResult res h :
      step ctx token h (editFieldMetadata ctx token editResult res h).1
  | step_settings locales h :
      step ctx token h (settings_loaded locales h)
  | step_render h h' :
      hooks (AssetLocalizationChecker ctx (Some h)) = Some h' →
      step ctx token h h'.

(** ** The plugin entry points ([main.tsx]) *)

(** The object returned by [overrideFieldExtensions]: the ids of its addons. *)
Record FieldExtensionOverride := {
  addons : list string;
}.

Definition overrideFieldExtensions (field_type : string)
  : option FieldExtensionOverride :=
  if String.eqb field_type "file"
  then Some {| addons := ["assetLocalizationChecker"] |}
  else None.

(** [renderFieldExtension]: [None] when nothing is rendered. *)
Definition renderFieldExtension (id : string) (ctx : Ctx) (prev : option Hooks)
  : option Rendered :=
  if String.eqb id "assetLocalizationChecker"
  then Some (AssetLocalizationChecker ctx prev)
  else None.

(** The entry point of the earlier revision, where the extension is
    installed by hand. *)
Record ManualFieldExtension := {
  mfe_id : string;
  mfe_name : string;
  mfe_type : string;
  mfe_fieldTypes : list string;
}.

Definition manualFieldExtensions : list ManualFieldExtension :=
  [ {| mfe_id := "assetLocalizationChecker";
       mfe_name := "Asset Localization Checker";
       mfe_type := "addon";
       mfe_fieldTypes := ["file"] |} ].

(** ** [getMaybeLocalizedValue] *)

(** [s.split(sep)] for a one-character separator: never empty. *)
Fixpoint split (sep : ascii) (s : string) : list string :=
  match s with
  | EmptyString => [""]
  | String c rest =>
      if Ascii.eqb c sep then "" :: split sep rest
      else match split sep rest with
           | seg :: segs => String c seg :: segs
           | [] => [String c ""]
           end
  end.

(** Whether a character occurs in a string. *)
Fixpoint occurs (c : ascii) (s : string) : bool :=
  match s with
  | EmptyString => false
  | String a rest => Ascii.eqb a c || occurs c rest
  end.

Section getMaybeLocalizedValue.
(** Values of type [any], and the property read [v[k]]: [None] when the
    read throws, which it does on [undefined] and on [null]. *)
Context {V : Type} (get : V → string → option V).

Definition getMaybeLocalizedValue (formValues : V) (fieldPath : string)
  : option V :=
  let segments := split "."%char fieldPath in
  let field := segments !! 0 ??! "undefined" in
  let locale := segments !! 1 in
  if Js.truthy locale
  then get formValues field ≫= λ v, get v (locale ??! "")
  else get formValues field.

End getMaybeLocalizedValue.

(** A small universe of values to run [getMaybeLocalizedValue] on: [null],
    [undefined] and objects without a prototype, as [Object.create(null)]
    makes them, for which a read is the read of an own property whatever
    the key. *)
Inductive Tree :=
  | TNull
  | TUndefined
  | TObject (props : Props)
with Props :=
  | PNil
  | PCons (key : string) (value : Tree) (rest : Props).

Fixpoint own (props : Props) (k : string) : Tree :=
  match props with
  | PNil => TUndefined
  | PCons k' v rest => if String.eqb k' k then v else own rest k
  end.

Definition tree_get (v : Tree) (k : string) : option Tree :=
  match v with
  | TObject props => Some (own props k)
  | TNull | TUndefined => None
  end.

(** ** The table revision *)

(** The field-level alt and title of the context. *)
Definition fieldLevelAlt (ctx : Ctx) : option string := alt (imageField ctx).
Definition fieldLevelTitle (ctx : Ctx) : option string := title (imageField ctx).


(** [humanReadableLocale]; [displayName] stands for
    [new Intl.DisplayNames(["en"], { type: "language" }).of]. *)
Definition humanReadableLocale (displayName : string → option string)
    (locale : string) : string :=
  displayName locale ??! locale.

(** The names of the members of [Object.prototype]: on an object made by a
    literal or by [JSON.parse], a read of one of them that is not an own
    property gives the inherited member, which is neither [null] nor
    [undefined]. *)
Definition inherited (k : string) : bool :=
  existsb (String.eqb k)
    ["constructor"; "hasOwnProperty"; "isPrototypeOf"; "propertyIsEnumerable";
     "toLocaleString"; "toString"; "valueOf"; "__proto__";
     "__defineGetter__"; "__defineSetter__"; "__lookupGetter__";
     "__lookupSetter__"].

Module Table.

Record LocaleRow := {
  code : string;
  label : string;
  alt : option string;
  title : option string;
}.

(** The callback of [localesInThisRecord.map]: [None] when destructuring
    [default_field_metadata[loc]] throws, the read giving [undefined]: the
    locale has no entry and does not name an inherited member. An
    inherited member has no [title] and no [alt]. *)
Definition entry (displayName : string → option string)
    (md : gmap string FieldMetadata) (loc : string)
  : option (string * LocaleRow) :=
  match md !! loc with
  | Some e =>
      Some (loc, {| code := loc;
                    label := humanReadableLocale displayName loc;
                    alt := fm_alt e;
                    title := fm_title e |})
  | None =>
      if inherited loc
      then Some (loc, {| code := loc;
                         label := humanReadableLocale displayName loc;
                         alt := None;
                         title := None |})
      else None
  end.

(** [Object.fromEntries]: a later entry overwrites an earlier one. *)
Definition fromEntries (entries : list (string * LocaleRow))
  : gmap string LocaleRow :=
  fold_left (λ m e, <[e.1 := e.2]> m) entries ∅.

(** The memo [metadataByLocale]: [None] when it throws. *)
Definition metadataByLocale (displayName : string → option string)
    (fetchedImageData : option Upload)
    (localesInThisRecord : option (list string))
  : option (gmap string LocaleRow) :=
  match metadata_of fetchedImageData with
  | None => Some ∅
  | Some md =>
      ls ← localesInThisRecord;
      entries ← mapM (entry displayName md) ls;
      Some (fromEntries entries)
  end.

(** What [displayText] renders. *)
Inductive Cell :=
  | Missing
  | OverriddenBy (overrideText : string)
  | Ok (text : string).

(** [text?.length] under [!]: zero and [undefined] are falsy. *)
Definition has_length (text : option string) : bool :=
  match text with
  | Some s => negb (String.length s =? 0)
  | None => false
  end.

Definition displayText (text overrideText : option string) : Cell :=
  if negb (Js.truthy overrideText) && negb (has_length text) then Missing
  else if Js.truthy overrideText then OverriddenBy (overrideText ??! "")
  else Ok (text ??! "").

Record TableRow := {
  locName : string;
  isCurrent : bool;
  titleCell : Cell;
  altCell : Cell;
}.

Inductive View :=
  | TokenError (message : string)
  | Loading
  | Rows (titleRequired altRequired : bool) (rows : list TableRow).

(** One row of the table: [None] when [metadataByLocale[loc]] is
    [undefined] and reading its [label] throws. *)
Definition row (ctx : Ctx) (byLocale : gmap string LocaleRow) (loc : string)
  : option TableRow :=
  r ← byLocale !! loc;
  Some {| locName := label r;
          isCurrent := bool_decide (loc = locale ctx);
          titleCell := displayText (title r) (fieldLevelTitle ctx);
          altCell := displayText (alt r) (fieldLevelAlt ctx) |}.

(** The view of one render: [None] when the render throws, which it does
    when the field value cannot be destructured, when the memo throws and
    when a row cannot be read. The check of the token comes first. *)
Definition AssetLocalizationChecker (displayName : string → option string)
    (hc : RenderFieldExtensionCtx) (fetchedImageData : option Upload)
  : option View :=
  if negb (Js.truthy (rf_currentUserAccessToken hc))
  then Some (TokenError token_error)
  else
    ctx ← destructure hc;
    byLocale ← metadataByLocale displayName fetchedImageData (internalLocales ctx);
    if negb (isReady fetchedImageData (internalLocales ctx)) then Some Loading
    else
      ls ← internalLocales ctx;
      rows ← mapM (row ctx byLocale) ls;
      Some (Rows (isTitleRequired ctx) (isAltRequired ctx) rows).

End Table.

(** The block of [currentLocaleChecker] of the current revision, read as a
    cell of the table revision. *)
Definition line_as_cell (line : CheckerLine) : Table.Cell :=
  match line with
  | HasNoRequired _ | HasNoOptional _ => Table.Missing
  | UsingFieldLevel _ value _ => Table.OverriddenBy value
  | SetInAsset _ _ value => Table.Ok value
  end.

(** A form object without a prototype, with a localized field [hero] and
    a plain field [slug]. *)
Definition form_props : Props :=
  PCons "hero" (TObject (PCons "en" (TObject PNil) (PCons "fr" TNull PNil)))
    (PCons "slug" (TObject PNil) PNil).

Definition form_tree : Tree := TObject form_props.

(** ** The loop of the first memo, in closed form *)

Definition no_alt (md : gmap string FieldMetadata) (l : string) : bool :=
  negb (Js.truthy (asset_alt md l)).

Definition no_title (md : gmap string FieldMetadata) (l : string) : bool :=
  negb (Js.truthy (asset_title md l)).

Section loop.
Variable md : gmap string FieldMetadata.

Lemma loop_missing_alts ls acc :
  localesMissingAlts (fold_left (aggregate_step md) ls acc)
  = localesMissingAlts acc ++ List.filter (no_alt md) ls.
Proof.
  revert acc. induction ls as [|l ls IH]; intros acc; simpl.
  - by rewrite app_nil_r.
  - rewrite IH. simpl. unfold push_if, no_alt.
    destruct (negb (Js.truthy (asset_alt md l))); simpl; [|done].
    by rewrite <- app_assoc.
Qed.

Lemma loop_missing_titles ls acc :
  localesMissingTitles (fold_left (aggregate_step md) ls acc)
  = localesMissingTitles acc ++ List.filter (no_title md) ls.
Proof.
  revert acc. induction ls as [|l ls IH]; intros acc; simpl.
  - by rewrite app_nil_r.
  - rewrite IH. simpl. unfold push_if, no_title.
    destruct (negb (Js.truthy (asset_title md l))); simpl; [|done].
    by rewrite <- app_assoc.
Qed.

Lemma loop_lookup ls acc k :
  assetLevelMetadataByLocale (fold_left (aggregate_step md) ls acc) !! k
  = if decide (k ∈ ls)
    then Some {| at_alt := asset_alt md k; at_title := asset_title md k |}
    else assetLevelMetadataByLocale acc !! k.
Proof.
  revert acc. induction ls as [|l ls IH]; intros acc; simpl.
  - done.
  - rewrite IH. simpl.
    destruct (decide (k ∈ ls)) as [Hin|Hnin].
    + rewrite decide_True; [done | by apply elem_of_cons; right].
    + destruct (decide (l = k)) as [->|Hne].
      * rewrite lookup_insert_eq.
        rewrite decide_True; [done | by apply elem_of_cons; left].
      * rewrite lookup_insert_ne; [|done].
        rewrite decide_False; [done|].
        intros [->|?]%elem_of_cons; done.
Qed.

End loop.

Lemma aggregate_missing_alts md ls :
  localesMissingAlts (aggregate (Some md) (Some ls)) = List.filter (no_alt md) ls.
Proof. unfold aggregate. by rewrite loop_missing_alts. Qed.

Lemma aggregate_missing_titles md ls :
  localesMissingTitles (aggregate (Some md) (Some ls))
  = List.filter (no_title md) ls.
Proof. unfold aggregate. by rewrite loop_missing_titles. Qed.

Lemma aggregate_lookup md ls k :
  assetLevelMetadataByLocale (aggregate (Some md) (Some ls)) !! k
  = if decide (k ∈ ls)
    then Some {| at_alt := asset_alt md k; at_title := asset_title md k |}
    else None.
Proof. unfold aggregate. rewrite loop_lookup. by case_decide. Qed.

Lemma aggregate_unloaded metadata locales :
  metadata = None ∨ locales = None → aggregate metadata locales = no_aggregates.
Proof. intros [-> | ->]; [done | by destruct metadata]. Qed.

Lemma filter_sublist {A : Type} (f : A → bool) (l : list A) :
  List.filter f l `sublist_of` l.
Proof.
  induction l as [|x l IH]; simpl; [constructor|].
  destruct (f x); by constructor.
Qed.

Lemma elem_of_filter_bool {A : Type} (f : A → bool) (l : list A) (x : A) :
  x ∈ List.filter f l ↔ x ∈ l ∧ f x = true.
Proof. rewrite !list_elem_of_In. apply filter_In. Qed.

(** ** Properties of the aggregate lists *)

(** C5. Whatever the asset metadata (loaded or not) and whatever the
    sequence of record locales, [localesMissingAlts] and
    [localesMissingTitles] are ordered subsequences of the record locales:
    they hold only record locales, in the order of the record. *)
Theorem missing_lists_subsequence_of_record_locales
    (metadata : option (gmap string FieldMetadata)) (locales : list string) :
  localesMissingAlts (aggregate metadata (Some locales)) `sublist_of` locales
  ∧ localesMissingTitles (aggregate metadata (Some locales)) `sublist_of` locales
  ∧ ∀ l, l ∈ localesMissingAlts (aggregate metadata (Some locales))
         ∨ l ∈ localesMissingTitles (aggregate metadata (Some locales)) →
         l ∈ locales.
Proof.
  assert (localesMissingAlts (aggregate metadata (Some locales))
            `sublist_of` locales
          ∧ localesMissingTitles (aggregate metadata (Some locales))
              `sublist_of` locales) as [Ha Ht].
  { destruct metadata as [md|].
    - rewrite aggregate_missing_alts, aggregate_missing_titles.
      split; apply filter_sublist.
    - split; apply sublist_nil_l. }
  split; [done | split; [done|]].
  intros l [Hl | Hl].
  - by apply (sublist_subseteq _ _ Ha).
  - by apply (sublist_subseteq _ _ Ht).
Qed.

(** C10. The earlier revision (an array of [{locale, alt, title}] built by
    [flatMap], then filtered) lists the same locales, in the same order, as
    missing an alt and as missing a title as the loop of the current
    revision does, for any metadata and record locales, loaded or not. *)
Theorem earlier_revision_lists_same_missing_locales
    (metadata : option (gmap string FieldMetadata))
    (locales : option (list string)) :
  map Earlier.locale (Earlier.missingAlts (Earlier.metadataByLocale metadata locales))
  = localesMissingAlts (aggregate metadata locales)
  ∧ map Earlier.locale
      (Earlier.missingTitles (Earlier.metadataByLocale metadata locales))
    = localesMissingTitles (aggregate metadata locales).
Proof.
  destruct metadata as [md|], locales as [ls|]; try done.
  rewrite aggregate_missing_alts, aggregate_missing_titles.
  unfold Earlier.missingAlts, Earlier.missingTitles, Earlier.metadataByLocale.
  split; induction ls as [|l ls IH]; simpl; try done.
  - unfold no_alt at 1. destruct (negb (Js.truthy (asset_alt md l))); simpl;
      by rewrite IH.
  - unfold no_title at 1. destruct (negb (Js.truthy (asset_title md l))); simpl;
      by rewrite IH.
Qed.

(** ** The look-up of the current locale *)

Lemma reconcile_current ctx h md ls :
  metadata_of (assetData h) = Some md →
  internalLocales ctx = Some ls →
  locale ctx ∈ ls →
  current (reconcile ctx h)
  = {| isMissingAlt :=
         negb (Js.truthy (alt (imageField ctx)))
         && negb (Js.truthy (asset_alt md (locale ctx)));
       isMissingTitle :=
         negb (Js.truthy (title (imageField ctx)))
         && negb (Js.truthy (asset_title md (locale ctx)));
       actualAlt :=
         alt (imageField ctx) ?? asset_alt md (locale ctx) ??! "";
       actualTitle :=
         title (imageField ctx) ?? asset_title md (locale ctx) ??! "" |}.
Proof.
  intros Hmd Hls Hin. unfold reconcile, current_locale. simpl.
  rewrite Hmd, Hls, aggregate_lookup. by rewrite decide_True.
Qed.

(** With a field-level value that is not nullish, the effective value is
    that value, for every locale and whatever the asset holds. *)
Lemma actualAlt_field_level byLocale loc v fieldLevelTitle :
  actualAlt (current_locale byLocale loc (Some v) fieldLevelTitle) = v.
Proof. unfold current_locale. by destruct (byLocale !! loc). Qed.

Lemma actualTitle_field_level byLocale loc fieldLevelAlt v :
  actualTitle (current_locale byLocale loc fieldLevelAlt (Some v)) = v.
Proof. unfold current_locale. by destruct (byLocale !! loc). Qed.

(** ** Scenarios *)

(** C6. Record locales [["en", "fr"]], asset metadata
    [{en: {alt: "cat"}, fr: {}}], no field-level alt: the locales missing an
    alt are [["fr"]], and the effective alt of locale [en] is ["cat"]. *)
Theorem scenario_no_override ctx h :
  internalLocales ctx = Some ["en"; "fr"] →
  metadata_of (assetData h) = Some md_cat →
  alt (imageField ctx) = None →
  localesMissingAlts (aggregates (reconcile ctx h)) = ["fr"]
  ∧ (locale ctx = "en" → actualAlt (current (reconcile ctx h)) = "cat").
Proof.
  intros Hls Hmd Halt. split.
  - unfold reconcile. simpl. rewrite Hmd, Hls. by vm_compute.
  - intros Hloc.
    rewrite (reconcile_current ctx h md_cat ["en"; "fr"]); try done.
    + simpl. rewrite Halt, Hloc. by vm_compute.
    + rewrite Hloc. set_solver.
Qed.

Lemma scenario_no_override_witness :
  localesMissingAlts (aggregates (reconcile (ctx_en_fr "en" None (Some "t")) loaded_cat))
  = ["fr"]
  ∧ actualAlt (current (reconcile (ctx_en_fr "en" None (Some "t")) loaded_cat))
    = "cat".
Proof.
  destruct (scenario_no_override (ctx_en_fr "en" None (Some "t")) loaded_cat)
    as [H1 H2]; [reflexivity | reflexivity | reflexivity |].
  split; [exact H1 | apply H2; reflexivity].
Defined.

(** C1, as the code has it. Same record and asset, field-level alt
    ["override"]: the effective alt is ["override"] for [en] and for [fr]
    (indeed for any current locale), while [localesMissingAlts], which looks
    at the asset level only, is still [["fr"]]. *)
Theorem scenario_override ctx h :
  internalLocales ctx = Some ["en"; "fr"] →
  metadata_of (assetData h) = Some md_cat →
  alt (imageField ctx) = Some "override" →
  actualAlt (current (reconcile ctx h)) = "override"
  ∧ localesMissingAlts (aggregates (reconcile ctx h)) = ["fr"].
Proof.
  intros Hls Hmd Halt. unfold reconcile. simpl. rewrite Halt, Hmd, Hls. split.
  - apply actualAlt_field_level.
  - by vm_compute.
Qed.

Lemma scenario_override_witness :
  (actualAlt (current (reconcile (ctx_en_fr "en" (Some "override") (Some "t")) loaded_cat))
   = "override"
   ∧ localesMissingAlts
       (aggregates (reconcile (ctx_en_fr "en" (Some "override") (Some "t")) loaded_cat))
     = ["fr"])
  ∧ (actualAlt (current (reconcile (ctx_en_fr "fr" (Some "override") (Some "t")) loaded_cat))
     = "override"
     ∧ localesMissingAlts
         (aggregates (reconcile (ctx_en_fr "fr" (Some "override") (Some "t")) loaded_cat))
       = ["fr"]).
Proof.
  split.
  - apply (scenario_override (ctx_en_fr "en" (Some "override") (Some "t")) loaded_cat);
      reflexivity.
  - apply (scenario_override (ctx_en_fr "fr" (Some "override") (Some "t")) loaded_cat);
      reflexivity.
Defined.

(** C1, as stated, fails: with the override in place the effective alt is
    ["override"] for both locales, but the list of locales missing an alt
    is not empty. *)
Lemma scenario_override_list_not_empty :
  ¬ (actualAlt (current (reconcile (ctx_en_fr "en" (Some "override") (Some "t")) loaded_cat))
     = "override"
     ∧ actualAlt (current (reconcile (ctx_en_fr "fr" (Some "override") (Some "t")) loaded_cat))
       = "override"
     ∧ localesMissingAlts
         (aggregates (reconcile (ctx_en_fr "en" (Some "override") (Some "t")) loaded_cat))
       = []).
Proof. intros (_ & _ & H). vm_compute in H. discriminate H. Qed.

(** ** Locales without an entry in the asset metadata *)

(** C3, as the code has it. A record locale [l] without an entry in the
    asset metadata is listed in both [localesMissingAlts] and
    [localesMissingTitles], whatever the field holds; when [l] is the
    current locale, [isMissingAlt] (resp. [isMissingTitle]) is true exactly
    when the field-level alt (resp. title) is null or empty. *)
Theorem locale_without_asset_entry ctx h md ls l :
  metadata_of (assetData h) = Some md →
  internalLocales ctx = Some ls →
  l ∈ ls →
  md !! l = None →
  l ∈ localesMissingAlts (aggregates (reconcile ctx h))
  ∧ l ∈ localesMissingTitles (aggregates (reconcile ctx h))
  ∧ (locale ctx = l →
     isMissingAlt (current (reconcile ctx h))
     = negb (Js.truthy (alt (imageField ctx)))
     ∧ isMissingTitle (current (reconcile ctx h))
       = negb (Js.truthy (title (imageField ctx)))).
Proof.
  intros Hmd Hls Hin Hnone.
  assert (asset_alt md l = None) as Ha by (unfold asset_alt; by rewrite Hnone).
  assert (asset_title md l = None) as Ht by (unfold asset_title; by rewrite Hnone).
  split; [|split].
  - unfold reconcile; simpl. rewrite Hmd, Hls, aggregate_missing_alts.
    apply elem_of_filter_bool. split; [done|]. unfold no_alt. by rewrite Ha.
  - unfold reconcile; simpl. rewrite Hmd, Hls, aggregate_missing_titles.
    apply elem_of_filter_bool. split; [done|]. unfold no_title. by rewrite Ht.
  - intros Hloc. subst l.
    rewrite (reconcile_current ctx h md ls Hmd Hls Hin). simpl.
    rewrite Ha, Ht. simpl. by rewrite !andb_true_r.
Qed.

Lemma locale_without_asset_entry_witness :
  "fr" ∈ localesMissingAlts
           (aggregates (reconcile (ctx_en_fr "fr" None (Some "t")) loaded_en_only))
  ∧ "fr" ∈ localesMissingTitles
             (aggregates (reconcile (ctx_en_fr "fr" None (Some "t")) loaded_en_only))
  ∧ isMissingAlt (current (reconcile (ctx_en_fr "fr" None (Some "t")) loaded_en_only))
    = true
  ∧ isMissingTitle (current (reconcile (ctx_en_fr "fr" None (Some "t")) loaded_en_only))
    = true.
Proof.
  destruct (locale_without_asset_entry (ctx_en_fr "fr" None (Some "t"))
              loaded_en_only md_en_only ["en"; "fr"] "fr")
    as (H1 & H2 & H3).
  - reflexivity.
  - reflexivity.
  - apply elem_of_cons; right. apply elem_of_cons; left. reflexivity.
  - reflexivity.
  - destruct (H3 eq_refl) as [H4 H5]. repeat split; assumption.
Defined.

(** C3, as stated, fails: [fr] is a record locale without an entry in the
    asset metadata, yet with a field-level alt ["override"] the component
    does not report the alt of [fr] as missing. *)
Lemma locale_without_asset_entry_not_missing_under_override :
  metadata_of (assetData loaded_en_only) = Some md_en_only
  ∧ internalLocales (ctx_en_fr "fr" (Some "override") (Some "t")) = Some ["en"; "fr"]
  ∧ "fr" ∈ ["en"; "fr"]
  ∧ md_en_only !! "fr" = None
  ∧ isMissingAlt
      (current (reconcile (ctx_en_fr "fr" (Some "override") (Some "t")) loaded_en_only))
    = false.
Proof.
  repeat split; try reflexivity.
  apply elem_of_cons; right. apply elem_of_cons; left. reflexivity.
Qed.

(** ** Resolution against flagging *)

(** The resolution follows the contract when presence is "not nullish". *)
Lemma actual_follows_not_nullish ctx h md ls :
  metadata_of (assetData h) = Some md →
  internalLocales ctx = Some ls →
  locale ctx ∈ ls →
  actualAlt (current (reconcile ctx h))
  = spec_effective not_nullish (alt (imageField ctx)) (asset_alt md (locale ctx))
  ∧ actualTitle (current (reconcile ctx h))
    = spec_effective not_nullish (title (imageField ctx))
        (asset_title md (locale ctx)).
Proof.
  intros Hmd Hls Hin. rewrite (reconcile_current ctx h md ls Hmd Hls Hin). simpl.
  split; [by destruct (alt (imageField ctx)) | by destruct (title (imageField ctx))].
Qed.

(** The two notions of presence differ on the empty string only. *)
Lemma truthy_not_nullish v : v ≠ Some "" → Js.truthy v = not_nullish v.
Proof.
  destruct v as [s|]; [|done]. intros Hne. simpl.
  destruct (String.eqb_spec s ""); [by subst | done].
Qed.

(** An empty field-level alt over a non-empty asset-level alt: the
    resolution keeps the empty override, nothing is flagged as missing, and
    the override indicator is off. *)
Lemma empty_field_level_alt_kept ctx h md ls s :
  metadata_of (assetData h) = Some md →
  internalLocales ctx = Some ls →
  locale ctx ∈ ls →
  alt (imageField ctx) = Some "" →
  asset_alt md (locale ctx) = Some s →
  s ≠ "" →
  actualAlt (current (reconcile ctx h)) = ""
  ∧ isMissingAlt (current (reconcile ctx h)) = false
  ∧ isFieldLevel (alt (imageField ctx)) = false.
Proof.
  intros Hmd Hls Hin Halt Hasset Hs.
  rewrite (reconcile_current ctx h md ls Hmd Hls Hin). simpl.
  rewrite Halt, Hasset. simpl.
  destruct (String.eqb_spec s ""); done.
Qed.

(** C9. There is an input with an empty field-level alt and a non-empty
    asset-level alt for the current locale on which the effective alt is
    the empty string while [isMissingAlt] is false and the override
    indicator [isFieldLevel] is false too. *)
Theorem presence_judged_inconsistently :
  ∃ (ctx : Ctx) (h : Hooks) (md : gmap string FieldMetadata) (s : string),
    metadata_of (assetData h) = Some md
    ∧ alt (imageField ctx) = Some ""
    ∧ asset_alt md (locale ctx) = Some s ∧ s ≠ ""
    ∧ actualAlt (current (reconcile ctx h)) = ""
    ∧ isMissingAlt (current (reconcile ctx h)) = false
    ∧ isFieldLevel (alt (imageField ctx)) = false.
Proof.
  exists (ctx_en_fr "en" (Some "") (Some "t")), loaded_cat, md_cat, "cat".
  repeat split; try reflexivity. discriminate.
Qed.

(** C2, at the failing input: record locales [["en", "fr"]], asset metadata
    [{en: {alt: "cat"}, fr: {}}], current locale [en], field-level alt [""].
    The component shows the alt of [en] as set in the asset with the empty
    string as its value, and no notion of "present" reconciles the computed
    effective alt and override indicator with the contract. *)
Theorem empty_override_breaks_contract :
  let ctx := ctx_en_fr "en" (Some "") (Some "t") in
  let r := reconcile ctx loaded_cat in
  asset_alt md_cat "en" = Some "cat"
  ∧ actualAlt (current r) = ""
  ∧ isFieldLevel (alt (imageField ctx)) = false
  ∧ altLine (main_view ctx loaded_cat r) = SetInAsset "alt text" "cat.jpg" ""
  ∧ ∀ present : option string → bool,
      ¬ (actualAlt (current r)
         = spec_effective present (alt (imageField ctx)) (asset_alt md_cat "en")
         ∧ isFieldLevel (alt (imageField ctx))
           = spec_isOverridden present (alt (imageField ctx))).
Proof.
  repeat split; try reflexivity.
  intros present [Heff Hov].
  unfold spec_isOverridden in Hov. unfold spec_effective in Heff.
  rewrite <- Hov in Heff. vm_compute in Heff. discriminate Heff.
Qed.

(** ** Required-ness *)

(** C4. Two runs that differ in the validator flags only compute the same
    [isMissingAlt], [isMissingTitle], [localesMissingAlts] and
    [localesMissingTitles], and render the same two sections of missing
    locales. *)
Theorem requiredness_does_not_change_missing ctx h v1 v2 :
  let r1 := reconcile (with_validators v1 ctx) h in
  let r2 := reconcile (with_validators v2 ctx) h in
  isMissingAlt (current r1) = isMissingAlt (current r2)
  ∧ isMissingTitle (current r1) = isMissingTitle (current r2)
  ∧ localesMissingAlts (aggregates r1) = localesMissingAlts (aggregates r2)
  ∧ localesMissingTitles (aggregates r1) = localesMissingTitles (aggregates r2)
  ∧ missingAltSection (main_view (with_validators v1 ctx) h r1)
    = missingAltSection (main_view (with_validators v2 ctx) h r2)
  ∧ missingTitleSection (main_view (with_validators v1 ctx) h r1)
    = missingTitleSection (main_view (with_validators v2 ctx) h r2).
Proof. repeat split. Qed.

(** What the flags do change is the severity of the line of a missing text. *)
Lemma requiredness_changes_severity :
  let ctx := ctx_en_fr "fr" None (Some "t") in
  let required := Some {| req_title := true; req_alt := true |} in
  altLine (main_view ctx loaded_cat (reconcile ctx loaded_cat))
  = HasNoOptional "alt text"
  ∧ altLine (main_view (with_validators required ctx) loaded_cat
               (reconcile (with_validators required ctx) loaded_cat))
    = HasNoRequired "alt text".
Proof. split; reflexivity. Qed.

(** ** Not ready, and no token *)

Lemma isReady_false assetData locales :
  isReady assetData locales = false
  ↔ assetData = None ∨ metadata_of assetData = None ∨ locales = None.
Proof.
  unfold isReady. split.
  - destruct assetData as [a|]; [|by left].
    destruct (metadata_of (Some a)) as [md|] eqn:Hmd; [|by right; left].
    destruct locales as [ls|]; [|by right; right].
    rewrite !bool_decide_eq_true_2; [done | by eexists ..].
  - intros [-> | [Hmd | ->]]; [done | |].
    + rewrite Hmd. rewrite (bool_decide_eq_false_2 (is_Some None));
        [by rewrite andb_false_r | by apply is_Some_None].
    + rewrite (bool_decide_eq_false_2 (is_Some None));
        [by rewrite andb_false_r | by apply is_Some_None].
Qed.

(** On a truthy token the render goes past the early exit. *)
Lemma render_with_token ctx prev :
  Js.truthy (currentUserAccessToken ctx) = true →
  view (AssetLocalizationChecker ctx prev)
  = let h := use_state ctx prev in
    let r := reconcile ctx h in
    if ready r then Main (main_view ctx h r) else Loading.
Proof.
  unfold AssetLocalizationChecker.
  destruct (currentUserAccessToken ctx) as [t|]; [|done].
  intros Ht. by rewrite Ht.
Qed.

(** What destructuring keeps of the context. *)
Lemma destructure_Some hc ctx :
  destructure hc = Some ctx →
  rf_fieldValue hc = Some (imageField ctx)
  ∧ currentUserAccessToken ctx = rf_currentUserAccessToken hc
  ∧ internalLocales ctx = rf_internalLocales hc
  ∧ locale ctx = rf_locale hc.
Proof.
  unfold destructure. destruct (rf_fieldValue hc) as [f|]; [|done].
  by intros [= <-].
Qed.

(** With a token and a field value the render is that of the destructured
    context. *)
Lemma host_render_with_field hc ctx prev :
  Js.truthy (rf_currentUserAccessToken hc) = true →
  destructure hc = Some ctx →
  Host.AssetLocalizationChecker hc prev
  = Returned (AssetLocalizationChecker ctx prev).
Proof.
  intros Ht Hd. unfold Host.AssetLocalizationChecker. by rewrite Ht, Hd.
Qed.

(** C7, as the code has it. Whenever the asset data, its metadata map or
    the list of record locales is absent, the map of metadata by locale and
    both lists of missing locales are empty; and, when a user access token
    is there and the field holds a value, the component renders the loading
    state, its reconciliation being that empty one. Nothing is said of a
    field value that is [null] or [undefined]. *)
Theorem not_loaded_renders_loading hc prev :
  let loaded := prev ≫= assetData in
  (loaded = None
   ∨ metadata_of loaded = None
   ∨ rf_internalLocales hc = None) →
  assetLevelMetadataByLocale
    (aggregate (metadata_of loaded) (rf_internalLocales hc)) = ∅
  ∧ localesMissingAlts
      (aggregate (metadata_of loaded) (rf_internalLocales hc)) = []
  ∧ localesMissingTitles
      (aggregate (metadata_of loaded) (rf_internalLocales hc)) = []
  ∧ (Js.truthy (rf_currentUserAccessToken hc) = true →
     ∀ ctx, destructure hc = Some ctx →
     ∃ r, Host.AssetLocalizationChecker hc prev = Returned r
          ∧ view r = Loading
          ∧ aggregates (reconcile ctx (use_state ctx prev))
            = aggregate (metadata_of loaded) (rf_internalLocales hc)).
Proof.
  intros loaded Habsent.
  assert (aggregate (metadata_of loaded) (rf_internalLocales hc) = no_aggregates)
    as Hagg.
  { apply aggregate_unloaded.
    destruct Habsent as [Ha | [Hm | Hl]]; [left; by rewrite Ha | by left | by right]. }
  rewrite Hagg. repeat split.
  intros Ht ctx Hd. exists (AssetLocalizationChecker ctx prev).
  destruct (destructure_Some hc ctx Hd) as (_ & Htok & Hls & _).
  assert (assetData (use_state ctx prev) = loaded) as Hstate.
  { unfold loaded. by destruct prev. }
  split; [by apply host_render_with_field|]. split.
  - rewrite render_with_token by (by rewrite Htok). simpl.
    rewrite Hstate, Hls.
    by rewrite (proj2 (isReady_false loaded (rf_internalLocales hc)) Habsent).
  - unfold reconcile; simpl. by rewrite Hstate, Hls.
Qed.

Lemma not_loaded_renders_loading_witness :
  assetLevelMetadataByLocale (aggregate None (Some ["en"; "fr"])) = ∅
  ∧ ∃ r, Host.AssetLocalizationChecker
           (host_en_fr "en" (Some plain_field) (Some "t")) None = Returned r
         ∧ view r = Loading.
Proof.
  destruct (not_loaded_renders_loading
              (host_en_fr "en" (Some plain_field) (Some "t")) None)
    as (H1 & _ & _ & H2).
  - left. reflexivity.
  - split; [exact H1|].
    destruct (H2 eq_refl (ctx_en_fr "en" None (Some "t")) eq_refl)
      as (r & Hr & Hv & _).
    exists r. split; [exact Hr | exact Hv].
Defined.

(** C7, as stated, fails: on mount without a user access token the asset
    data is absent and the field holds a value, yet the component renders
    the token error, not the loading state. *)
Lemma not_loaded_without_token_renders_token_error :
  (None : option Hooks) ≫= assetData = None
  ∧ Host.AssetLocalizationChecker (host_en_fr "en" (Some plain_field) None) None
    = Returned (no_token None)
  ∧ view (no_token None) = TokenError token_error
  ∧ view (no_token None) ≠ Loading.
Proof. repeat split. discriminate. Qed.



(** With a token, the mounting render does fetch the asset. *)
Lemma mount_with_token_fetches :
  effects (AssetLocalizationChecker (ctx_en_fr "en" None (Some "t")) None)
  = [GetSettings; UploadsFind "t" None "42"].
Proof. reflexivity. Qed.

(** ** More on the first memo: the map and the two lists *)

(** X1. With metadata and record locales at hand, the keys of
    [assetLevelMetadataByLocale] are exactly the record locales, and the
    entry of each holds the asset-level alt and title of that locale. *)
Theorem metadata_map_covers_record_locales
    (md : gmap string FieldMetadata) (ls : list string) :
  dom (assetLevelMetadataByLocale (aggregate (Some md) (Some ls)))
  = list_to_set ls
  ∧ ∀ l, l ∈ ls →
      assetLevelMetadataByLocale (aggregate (Some md) (Some ls)) !! l
      = Some {| at_alt := asset_alt md l; at_title := asset_title md l |}.
Proof.
  split.
  - apply set_eq. intros k.
    rewrite elem_of_dom, aggregate_lookup, elem_of_list_to_set.
    case_decide as Hk; split; intros H.
    + done.
    + by eexists.
    + by destruct H as [? ?].
    + done.
  - intros l Hl. rewrite aggregate_lookup. by rewrite decide_True.
Qed.

(** X2. A locale is listed as missing an alt (resp. a title) exactly when
    it is a record locale whose asset-level alt (resp. title) is null,
    undefined or empty. *)
Theorem missing_lists_membership
    (md : gmap string FieldMetadata) (ls : list string) (l : string) :
  (l ∈ localesMissingAlts (aggregate (Some md) (Some ls))
   ↔ l ∈ ls ∧ Js.truthy (asset_alt md l) = false)
  ∧ (l ∈ localesMissingTitles (aggregate (Some md) (Some ls))
     ↔ l ∈ ls ∧ Js.truthy (asset_title md l) = false).
Proof.
  rewrite aggregate_missing_alts, aggregate_missing_titles.
  rewrite !elem_of_filter_bool. unfold no_alt, no_title.
  split; by rewrite negb_true_iff.
Qed.

(** X3. When the record locales are pairwise distinct, no locale is listed
    twice, so that the count in the title of a section counts locales; in
    any case a list is no longer than the record locales. *)
Theorem missing_lists_no_repeat
    (metadata : option (gmap string FieldMetadata)) (ls : list string) :
  NoDup ls →
  NoDup (localesMissingAlts (aggregate metadata (Some ls)))
  ∧ NoDup (localesMissingTitles (aggregate metadata (Some ls)))
  ∧ length (localesMissingAlts (aggregate metadata (Some ls))) ≤ length ls
  ∧ length (localesMissingTitles (aggregate metadata (Some ls))) ≤ length ls.
Proof.
  intros Hnd.
  assert (localesMissingAlts (aggregate metadata (Some ls)) `sublist_of` ls
          ∧ localesMissingTitles (aggregate metadata (Some ls)) `sublist_of` ls)
    as [Ha Ht].
  { destruct metadata as [md|].
    - rewrite aggregate_missing_alts, aggregate_missing_titles.
      split; apply filter_sublist.
    - split; apply sublist_nil_l. }
  repeat split.
  - by eapply sublist_NoDup.
  - by eapply sublist_NoDup.
  - by apply sublist_length.
  - by apply sublist_length.
Qed.

Lemma missing_lists_no_repeat_witness :
  NoDup (localesMissingAlts (aggregate (Some md_cat) (Some ["en"; "fr"])))
  ∧ length (localesMissingTitles (aggregate (Some md_cat) (Some ["en"; "fr"]))) ≤ 2.
Proof.
  destruct (missing_lists_no_repeat (Some md_cat) ["en"; "fr"])
    as (H1 & _ & _ & H2).
  - apply NoDup_cons. split.
    + intros H. apply list_elem_of_singleton in H. discriminate H.
    + apply NoDup_singleton.
  - split; [exact H1 | exact H2].
Defined.

(** ** More on the second memo: the current locale *)

(** X4. Whatever the map, the locale and the field-level values, a text
    flagged as missing has the empty string as its effective value. *)
Theorem missing_has_empty_value (byLocale : gmap string AltTitle)
    (loc : string) (fieldLevelAlt fieldLevelTitle : option string) :
  let r := current_locale byLocale loc fieldLevelAlt fieldLevelTitle in
  (isMissingAlt r = true → actualAlt r = "")
  ∧ (isMissingTitle r = true → actualTitle r = "").
Proof.
  assert (∀ v : option string, Js.truthy v = false → v ??! "" = "") as Hfalsy.
  { intros [s|]; [|done]. simpl. by destruct (String.eqb_spec s "") as [->|]. }
  unfold current_locale. destruct (byLocale !! loc) as [m|]; simpl.
  - split; intros [Hf Ha]%andb_true_iff;
      apply negb_true_iff in Hf; apply negb_true_iff in Ha.
    + destruct fieldLevelAlt as [s|]; [by apply (Hfalsy (Some s)) | by apply Hfalsy].
    + destruct fieldLevelTitle as [s|]; [by apply (Hfalsy (Some s)) | by apply Hfalsy].
  - split; intros Hf%negb_true_iff; by apply Hfalsy.
Qed.

(** X5. For a loaded asset and a current locale that is a record locale,
    the alt (resp. title) of the current locale is flagged as missing
    exactly when the field-level value is falsy and the locale is in the
    list of locales missing an alt (resp. a title). *)
Theorem current_flag_agrees_with_lists ctx h md ls :
  metadata_of (assetData h) = Some md →
  internalLocales ctx = Some ls →
  locale ctx ∈ ls →
  (isMissingAlt (current (reconcile ctx h)) = true
   ↔ Js.truthy (alt (imageField ctx)) = false
     ∧ locale ctx ∈ localesMissingAlts (aggregates (reconcile ctx h)))
  ∧ (isMissingTitle (current (reconcile ctx h)) = true
     ↔ Js.truthy (title (imageField ctx)) = false
       ∧ locale ctx ∈ localesMissingTitles (aggregates (reconcile ctx h))).
Proof.
  intros Hmd Hls Hin.
  rewrite (reconcile_current ctx h md ls Hmd Hls Hin). simpl.
  unfold reconcile; simpl. rewrite Hmd, Hls.
  rewrite aggregate_missing_alts, aggregate_missing_titles.
  rewrite !elem_of_filter_bool. unfold no_alt, no_title.
  rewrite !andb_true_iff, !negb_true_iff. tauto.
Qed.

Lemma current_flag_agrees_with_lists_witness :
  isMissingAlt (current (reconcile (ctx_en_fr "fr" None (Some "t")) loaded_cat)) = true
  ↔ Js.truthy (alt (imageField (ctx_en_fr "fr" None (Some "t")))) = false
    ∧ "fr" ∈ localesMissingAlts
               (aggregates (reconcile (ctx_en_fr "fr" None (Some "t")) loaded_cat)).
Proof.
  destruct (current_flag_agrees_with_lists (ctx_en_fr "fr" None (Some "t"))
              loaded_cat md_cat ["en"; "fr"]) as [H _].
  - reflexivity.
  - reflexivity.
  - apply elem_of_cons; right. apply elem_of_cons; left. reflexivity.
  - exact H.
Defined.

(** X6. When the current locale is not among the record locales, the asset
    is not consulted for it, loaded or not: the flags and the effective
    values come from the field-level values alone. *)
Theorem locale_outside_record_ignores_asset ctx h ls :
  internalLocales ctx = Some ls →
  locale ctx ∉ ls →
  current (reconcile ctx h)
  = {| isMissingAlt := negb (Js.truthy (alt (imageField ctx)));
       isMissingTitle := negb (Js.truthy (title (imageField ctx)));
       actualAlt := alt (imageField ctx) ??! "";
       actualTitle := title (imageField ctx) ??! "" |}.
Proof.
  intros Hls Hnin. unfold reconcile, current_locale; simpl. rewrite Hls.
  destruct (metadata_of (assetData h)) as [md|].
  - rewrite aggregate_lookup. by rewrite decide_False.
  - done.
Qed.

Lemma locale_outside_record_ignores_asset_witness :
  asset_alt md_cat "en" = Some "cat"
  ∧ actualAlt (current (reconcile ctx_fr_only_at_en loaded_cat)) = ""
  ∧ isMissingAlt (current (reconcile ctx_fr_only_at_en loaded_cat)) = true.
Proof.
  pose proof (locale_outside_record_ignores_asset ctx_fr_only_at_en loaded_cat ["fr"])
    as H.
  rewrite H.
  - repeat split.
  - reflexivity.
  - intros Hin. apply list_elem_of_singleton in Hin. discriminate Hin.
Defined.

(** ** What the rendered lines and sections tell *)

Lemma truthy_Some (v : option string) :
  Js.truthy v = true ↔ ∃ s, v = Some s ∧ s ≠ "".
Proof.
  destruct v as [s|]; simpl.
  - destruct (String.eqb_spec s "") as [->|Hne]; simpl.
    + split; [done | by intros (? & [= <-] & ?)].
    + split; [by exists s | done].
  - split; [done | by intros (? & ? & ?)].
Qed.

Lemma falsy_not_empty (v : option string) :
  Js.truthy v = false → v ≠ Some "" → v = None.
Proof.
  destruct v as [s|]; [|done]. simpl. intros Hs Hne.
  destruct (String.eqb_spec s "") as [Heq|]; [by rewrite Heq in Hne | done].
Qed.

Lemma checker_UsingFieldLevel ctx h name value m r f n x w :
  currentLocaleChecker ctx h name value m r f = UsingFieldLevel n x w →
  m = false ∧ f = true ∧ n = name ∧ x = value
  ∧ w = negb (localized ctx)
        && negb (bool_decide (Some (locale ctx) = head (siteLocales h))).
Proof.
  unfold currentLocaleChecker. destruct m, r, f; simpl; intros [=]; by subst.
Qed.

Lemma checker_SetInAsset ctx h name value m r f n src x :
  currentLocaleChecker ctx h name value m r f = SetInAsset n src x →
  m = false ∧ f = false ∧ n = name ∧ x = value.
Proof.
  unfold currentLocaleChecker. destruct m, r, f; simpl; intros [=]; by subst.
Qed.

(** A text that is not flagged while the field-level value is nullish comes
    from the entry of the current locale. *)
Lemma unflagged_without_field_level ctx h :
  (isMissingAlt (current (reconcile ctx h)) = false →
   alt (imageField ctx) = None →
   ∃ md ls s,
     metadata_of (assetData h) = Some md ∧ internalLocales ctx = Some ls
     ∧ locale ctx ∈ ls ∧ asset_alt md (locale ctx) = Some s ∧ s ≠ ""
     ∧ actualAlt (current (reconcile ctx h)) = s)
  ∧ (isMissingTitle (current (reconcile ctx h)) = false →
     title (imageField ctx) = None →
     ∃ md ls s,
       metadata_of (assetData h) = Some md ∧ internalLocales ctx = Some ls
       ∧ locale ctx ∈ ls ∧ asset_title md (locale ctx) = Some s ∧ s ≠ ""
       ∧ actualTitle (current (reconcile ctx h)) = s).
Proof.
  unfold reconcile; simpl.
  destruct (metadata_of (assetData h)) as [md|];
    [destruct (internalLocales ctx) as [ls|] |].
  - unfold current_locale. rewrite aggregate_lookup.
    destruct (decide (locale ctx ∈ ls)) as [Hin|Hnin]; simpl.
    + split; intros Hm Hf; rewrite Hf in Hm |- *; simpl in Hm |- *;
        apply negb_false_iff, truthy_Some in Hm as (s & Hs & Hne);
        exists md, ls, s; rewrite Hs; done.
    + split; intros Hm Hf; by rewrite Hf in Hm.
  - split; intros Hm Hf; unfold current_locale in Hm; simpl in Hm;
      by rewrite lookup_empty, Hf in Hm.
  - split; intros Hm Hf; unfold current_locale in Hm; simpl in Hm;
      by rewrite lookup_empty, Hf in Hm.
Qed.

(** X7. A line saying that the field-level text is used shows exactly the
    field-level value, which is not empty; and the warning about the
    override comes with it only when the field is not localized and the
    current locale is not the first site locale. *)
Theorem field_level_line_shows_field_value ctx h :
  let v := main_view ctx h (reconcile ctx h) in
  (∀ n x w, altLine v = UsingFieldLevel n x w →
     alt (imageField ctx) = Some x ∧ x ≠ ""
     ∧ (w = true →
        localized ctx = false ∧ head (siteLocales h) ≠ Some (locale ctx)))
  ∧ (∀ n x w, titleLine v = UsingFieldLevel n x w →
       title (imageField ctx) = Some x ∧ x ≠ ""
       ∧ (w = true →
          localized ctx = false ∧ head (siteLocales h) ≠ Some (locale ctx))).
Proof.
  assert (∀ w, w = negb (localized ctx)
                   && negb (bool_decide (Some (locale ctx) = head (siteLocales h))) →
               w = true →
               localized ctx = false ∧ head (siteLocales h) ≠ Some (locale ctx))
    as Hwarn.
  { intros w -> [Hl Hd]%andb_true_iff. split; [by apply negb_true_iff|].
    apply negb_true_iff, bool_decide_eq_false in Hd. congruence. }
  simpl. split; intros n x w Hline;
    apply checker_UsingFieldLevel in Hline as (_ & Hf & _ & Hx & Hw);
    apply truthy_Some in Hf as (s & Hs & Hne).
  - unfold reconcile in Hx; simpl in Hx.
    rewrite Hs, actualAlt_field_level in Hx. subst x. eauto.
  - unfold reconcile in Hx; simpl in Hx.
    rewrite Hs, actualTitle_field_level in Hx. subst x. eauto.
Qed.

(** X8. Unless the field-level value is the empty string, a line saying
    that the text is set in the asset shows the asset-level text of the
    current locale, which is then a record locale of a loaded asset, and
    that text is not empty. *)
Theorem asset_line_shows_asset_text ctx h :
  let v := main_view ctx h (reconcile ctx h) in
  (∀ n src x, altLine v = SetInAsset n src x →
     alt (imageField ctx) ≠ Some "" →
     ∃ md ls,
       metadata_of (assetData h) = Some md ∧ internalLocales ctx = Some ls
       ∧ locale ctx ∈ ls ∧ asset_alt md (locale ctx) = Some x ∧ x ≠ "")
  ∧ (∀ n src x, titleLine v = SetInAsset n src x →
       title (imageField ctx) ≠ Some "" →
       ∃ md ls,
         metadata_of (assetData h) = Some md ∧ internalLocales ctx = Some ls
         ∧ locale ctx ∈ ls ∧ asset_title md (locale ctx) = Some x ∧ x ≠ "").
Proof.
  destruct (unflagged_without_field_level ctx h) as [Halt Htitle].
  simpl. split; intros n src x Hline Hne;
    apply checker_SetInAsset in Hline as (Hm & Hf & _ & Hx).
  - apply falsy_not_empty in Hf; [|done].
    destruct (Halt Hm Hf) as (md & ls & s & ? & ? & ? & ? & ? & Hs).
    exists md, ls. assert (x = s) as -> by (rewrite Hx; exact Hs). done.
  - apply falsy_not_empty in Hf; [|done].
    destruct (Htitle Hm Hf) as (md & ls & s & ? & ? & ? & ? & ? & Hs).
    exists md, ls. assert (x = s) as -> by (rewrite Hx; exact Hs). done.
Qed.

(** The two lines on the scenarios: the field-level alt ["override"] seen
    from [fr], with the warning, and the asset-level alt of [en]. *)
Lemma lines_of_the_scenarios :
  altLine (main_view (ctx_en_fr "fr" (Some "override") (Some "t")) loaded_cat
             (reconcile (ctx_en_fr "fr" (Some "override") (Some "t")) loaded_cat))
  = UsingFieldLevel "alt text" "override" true
  ∧ altLine (main_view (ctx_en_fr "en" None (Some "t")) loaded_cat
               (reconcile (ctx_en_fr "en" None (Some "t")) loaded_cat))
    = SetInAsset "alt text" "cat.jpg" "cat".
Proof. split; reflexivity. Qed.

Lemma missing_section_None (locales : list string) :
  missing_section locales = None ↔ locales = [].
Proof.
  unfold missing_section. destruct locales as [|l ls]; [done|].
  case_bool_decide as Hlen; [done | simpl in Hlen; lia].
Qed.

Lemma filter_nil_iff {A : Type} (f : A → bool) (l : list A) :
  List.filter f l = [] ↔ ∀ x, x ∈ l → f x = false.
Proof.
  induction l as [|a l IH]; simpl.
  - split; [intros _ x Hx; by apply elem_of_nil in Hx | done].
  - destruct (f a) eqn:Hfa.
    + split; [done|]. intros H. specialize (H a (list_elem_of_here a l)).
      congruence.
    + rewrite IH. split.
      * intros H x [->|Hx]%elem_of_cons; [done | by apply H].
      * intros H x Hx. apply H. by apply elem_of_cons; right.
Qed.

(** X9. For a loaded asset, the section on missing alt text (resp. titles)
    is left out exactly when every record locale has a non-empty
    asset-level alt (resp. title); a section that is rendered lists the
    locales of [localesMissingAlts] (resp. [localesMissingTitles]), of
    which there is at least one. *)
Theorem missing_section_hidden_iff_all_set ctx h md ls :
  metadata_of (assetData h) = Some md →
  internalLocales ctx = Some ls →
  let r := reconcile ctx h in
  let v := main_view ctx h r in
  (missingAltSection v = None
   ↔ ∀ l, l ∈ ls → Js.truthy (asset_alt md l) = true)
  ∧ (missingTitleSection v = None
     ↔ ∀ l, l ∈ ls → Js.truthy (asset_title md l) = true)
  ∧ (∀ shown, missingAltSection v = Some shown →
       shown = localesMissingAlts (aggregates r) ∧ shown ≠ [])
  ∧ (∀ shown, missingTitleSection v = Some shown →
       shown = localesMissingTitles (aggregates r) ∧ shown ≠ []).
Proof.
  intros Hmd Hls. simpl. unfold reconcile; simpl. rewrite Hmd, Hls.
  rewrite aggregate_missing_alts, aggregate_missing_titles.
  rewrite !missing_section_None, !filter_nil_iff.
  unfold no_alt, no_title.
  assert (∀ shown l, missing_section l = Some shown → shown = l ∧ shown ≠ [])
    as Hshown.
  { intros shown l. unfold missing_section. case_bool_decide as Hlen; [|done].
    intros [= <-]. split; [done|]. intros ->. simpl in Hlen. lia. }
  repeat split.
  - intros H l Hl. apply negb_false_iff. by apply H.
  - intros H l Hl. apply negb_false_iff. by apply H.
  - intros H l Hl. apply negb_false_iff. by apply H.
  - intros H l Hl. apply negb_false_iff. by apply H.
  - by eapply Hshown.
  - by eapply Hshown.
  - by eapply Hshown.
  - by eapply Hshown.
Qed.

Lemma missing_section_hidden_iff_all_set_witness :
  missingAltSection
    (main_view (ctx_en_fr "en" None (Some "t")) loaded_cat
       (reconcile (ctx_en_fr "en" None (Some "t")) loaded_cat))
  = Some ["fr"]
  ∧ ¬ ∀ l, l ∈ ["en"; "fr"] → Js.truthy (asset_alt md_cat l) = true.
Proof.
  destruct (missing_section_hidden_iff_all_set (ctx_en_fr "en" None (Some "t"))
              loaded_cat md_cat ["en"; "fr"] eq_refl eq_refl)
    as (Hiff & _ & _ & _).
  split; [reflexivity|].
  intros Hall. apply Hiff in Hall. discriminate Hall.
Defined.

(** X10. The section on field-level overrides is rendered exactly when one
    of the two lines of the current locale says that the field-level text
    is used; every item of the section shows a non-empty field-level
    value, and there is at least one item. *)
Theorem override_section_iff_field_level_line ctx h :
  let v := main_view ctx h (reconcile ctx h) in
  (is_Some (overrideSection v)
   ↔ (∃ n x w, altLine v = UsingFieldLevel n x w)
     ∨ (∃ n x w, titleLine v = UsingFieldLevel n x w))
  ∧ ∀ items, overrideSection v = Some items →
      items ≠ []
      ∧ ∀ n x, (n, x) ∈ items →
          x ≠ ""
          ∧ ((n = "Alt" ∧ alt (imageField ctx) = Some x)
             ∨ (n = "Title" ∧ title (imageField ctx) = Some x)).
Proof.
  assert (∀ byLocale loc fa ft,
            Js.truthy fa = true →
            isMissingAlt (current_locale byLocale loc fa ft) = false) as Hna.
  { intros byLocale loc fa ft Hfa. unfold current_locale.
    destruct (byLocale !! loc); simpl; by rewrite Hfa. }
  assert (∀ byLocale loc fa ft,
            Js.truthy ft = true →
            isMissingTitle (current_locale byLocale loc fa ft) = false) as Hnt.
  { intros byLocale loc fa ft Hft. unfold current_locale.
    destruct (byLocale !! loc); simpl; by rewrite Hft. }
  assert (∀ name v n x, (n, x) ∈ override_item name v →
            n = name ∧ v = Some x ∧ x ≠ "") as Hitem.
  { intros name v n x. unfold override_item.
    destruct (Js.truthy v) eqn:Hv; [|by intros ?%elem_of_nil].
    apply truthy_Some in Hv as (s & -> & Hs). simpl.
    by intros [= -> ->]%list_elem_of_singleton. }
  simpl. split; [split|].
  - unfold override_section. intros [items Hitems].
    destruct (Js.truthy (alt (imageField ctx))) eqn:Ha.
    + left. unfold currentLocaleChecker, reconcile; simpl.
      rewrite (Hna _ _ _ _ Ha). unfold isFieldLevel. rewrite Ha. eauto.
    + destruct (Js.truthy (title (imageField ctx))) eqn:Ht; [|done].
      right. unfold currentLocaleChecker, reconcile; simpl.
      rewrite (Hnt _ _ _ _ Ht). unfold isFieldLevel. rewrite Ht. eauto.
  - unfold override_section.
    intros [(n & x & w & Hl) | (n & x & w & Hl)];
      apply checker_UsingFieldLevel in Hl as (_ & Hf & _);
      unfold isFieldLevel in Hf; rewrite Hf; [done|].
    by rewrite orb_true_r.
  - intros items. unfold override_section.
    destruct (Js.truthy (alt (imageField ctx)) || Js.truthy (title (imageField ctx)))
      eqn:Hor; [|done].
    intros [= <-]. split.
    + apply orb_true_iff in Hor as [Ha | Ht].
      * unfold override_item at 1. by rewrite Ha.
      * unfold override_item at 2. rewrite Ht.
        by destruct (override_item "Alt" (alt (imageField ctx))).
    + intros n x [Hin | Hin]%elem_of_app;
        apply Hitem in Hin as (-> & Hv & Hx); eauto.
Qed.

(** ** Renders, effects and callbacks *)

Lemma render_hooks_with_token ctx prev :
  Js.truthy (currentUserAccessToken ctx) = true →
  hooks (AssetLocalizationChecker ctx prev)
  = Some {| assetData := assetData (use_state ctx prev);
            siteLocales := siteLocales (use_state ctx prev);
            fetchedFor := upload_id (imageField ctx) |}.
Proof.
  unfold AssetLocalizationChecker.
  destruct (currentUserAccessToken ctx) as [t|]; [|done].
  intros Ht. by rewrite Ht.
Qed.

Lemma render_effects_with_token ctx prev token :
  currentUserAccessToken ctx = Some token →
  Js.truthy (Some token) = true →
  effects (AssetLocalizationChecker ctx prev) = use_effects ctx token prev.
Proof.
  unfold AssetLocalizationChecker. intros -> Ht. by rewrite Ht.
Qed.

Lemma step_keeps ctx token h h' :
  step ctx token h h' →
  (fetchedFor h = upload_id (imageField ctx) →
   fetchedFor h' = upload_id (imageField ctx))
  ∧ (is_Some (assetData h) → is_Some (assetData h')).
Proof.
  intros Hstep. destruct Hstep as
    [res h | uploadResult res h | editResult res h | locales h | h h' Hr].
  - destruct res; simpl; split; eauto.
  - unfold editImage. destruct uploadResult; [|done].
    destruct (fetchAsset ctx token res h) as [h1 calls] eqn:Hf. simpl.
    replace h1 with (fetchAsset ctx token res h).1 by (by rewrite Hf).
    destruct res; simpl; split; eauto.
  - unfold editFieldMetadata. destruct editResult; [|done].
    destruct (fetchAsset ctx token res h) as [h1 calls] eqn:Hf. simpl.
    replace h1 with (fetchAsset ctx token res h).1 by (by rewrite Hf).
    destruct res; simpl; split; eauto.
  - done.
  - unfold AssetLocalizationChecker in Hr.
    destruct (currentUserAccessToken ctx) as [t|]; simpl in Hr.
    + destruct (negb (t =? "")%string); simpl in Hr; injection Hr as <-; done.
    + by injection Hr as <-.
Qed.

Lemma steps_keep ctx token h h' :
  rtc (step ctx token) h h' →
  (fetchedFor h = upload_id (imageField ctx) →
   fetchedFor h' = upload_id (imageField ctx))
  ∧ (is_Some (assetData h) → is_Some (assetData h')).
Proof.
  induction 1 as [h|h1 h2 h3 Hstep _ IH]; [done|].
  destruct (step_keeps ctx token h1 h2 Hstep) as [Hid Hsome].
  destruct IH as [IHid IHsome]. split; eauto.
Qed.

(** X11. With a user access token and a field that holds a value: after
    the mounting render, and for as long as the context stays the same, a
    render returns and makes no call at all, whatever the look-ups, the
    editors and the settings answered in between: the asset is looked up
    on mount and after an edit, never by rendering again. *)
Theorem rerender_makes_no_call hc ctx token r0 h0 h :
  rf_currentUserAccessToken hc = Some token →
  Js.truthy (Some token) = true →
  destructure hc = Some ctx →
  Host.AssetLocalizationChecker hc None = Returned r0 →
  hooks r0 = Some h0 →
  rtc (step ctx token) h0 h →
  ∃ r, Host.AssetLocalizationChecker hc (Some h) = Returned r
       ∧ effects r = [].
Proof.
  intros Htok Ht Hd Hmount Hh0 Hsteps.
  destruct (destructure_Some hc ctx Hd) as (_ & Hctok & _).
  rewrite Htok in Hctok.
  rewrite (host_render_with_field hc ctx None) in Hmount
    by (by rewrite ?Htok).
  injection Hmount as <-.
  exists (AssetLocalizationChecker ctx (Some h)).
  split; [apply host_render_with_field; by rewrite ?Htok|].
  assert (fetchedFor h = upload_id (imageField ctx)) as Hid.
  { apply (steps_keep ctx token h0 h Hsteps).
    rewrite render_hooks_with_token in Hh0 by (by rewrite Hctok).
    by injection Hh0 as <-. }
  rewrite (render_effects_with_token ctx (Some h) token Hctok Ht).
  unfold use_effects. rewrite Hid. by rewrite String.eqb_refl.
Qed.

Lemma rerender_makes_no_call_witness :
  ∃ r, Host.AssetLocalizationChecker
         (host_en_fr "en" (Some plain_field) (Some "t"))
         (Some (settings_loaded ["en"; "fr"]
                  (fetchAsset (ctx_en_fr "en" None (Some "t")) "t" (Found asset_cat)
                     {| assetData := None; siteLocales := ["en"];
                        fetchedFor := "42" |}).1))
       = Returned r
       ∧ effects r = [].
Proof.
  apply (rerender_makes_no_call (host_en_fr "en" (Some plain_field) (Some "t"))
           (ctx_en_fr "en" None (Some "t")) "t"
           (AssetLocalizationChecker (ctx_en_fr "en" None (Some "t")) None)
           {| assetData := None; siteLocales := ["en"]; fetchedFor := "42" |}).
  - reflexivity.
  - reflexivity.
  - reflexivity.
  - reflexivity.
  - reflexivity.
  - eapply rtc_l; [apply (step_fetchAsset _ _ (Found asset_cat))|].
    eapply rtc_l; [apply (step_settings _ _ ["en"; "fr"])|].
    apply rtc_refl.
Defined.

(** X12. With a user access token: when the field value is [null] or
    [undefined] the render throws, and so makes no call; when the field
    holds a value the render returns, never raises an alert, asks for the
    settings on mount only, and looks up no other asset than the upload
    of the field, with the token of the context and its environment when
    that is not empty; on mount it then makes exactly these two calls. *)
Theorem render_calls_with_token hc prev token :
  rf_currentUserAccessToken hc = Some token →
  Js.truthy (Some token) = true →
  (rf_fieldValue hc = None → Host.AssetLocalizationChecker hc prev = Threw)
  ∧ (∀ ctx, destructure hc = Some ctx →
       ∃ r, Host.AssetLocalizationChecker hc prev = Returned r
            ∧ (∀ e, e ∈ effects r →
                 (e = GetSettings ∧ prev = None) ∨ e = client_find ctx token)
            ∧ (prev = None → effects r = [GetSettings; client_find ctx token])).
Proof.
  intros Htok Ht. split.
  - intros Hnone. unfold Host.AssetLocalizationChecker, destructure.
    by rewrite Htok, Ht, Hnone.
  - intros ctx Hd. exists (AssetLocalizationChecker ctx prev).
    destruct (destructure_Some hc ctx Hd) as (_ & Hctok & _).
    rewrite Htok in Hctok.
    split; [apply host_render_with_field; by rewrite ?Htok|].
    rewrite (render_effects_with_token ctx prev token Hctok Ht).
    unfold use_effects, client_find. split.
    + intros e. destruct prev as [h|].
      * destruct (fetchedFor h =? upload_id (imageField ctx))%string.
        -- by intros ?%elem_of_nil.
        -- intros He%list_elem_of_singleton. by right.
      * intros [He|He%list_elem_of_singleton]%elem_of_cons; [by left | by right].
    + by intros ->.
Qed.

Lemma render_calls_with_token_witness :
  Host.AssetLocalizationChecker (host_en_fr "en" None (Some "t")) None = Threw
  ∧ ∃ r, Host.AssetLocalizationChecker
           (host_en_fr "en" (Some plain_field) (Some "t")) None = Returned r
         ∧ effects r = [GetSettings; UploadsFind "t" None "42"].
Proof.
  split.
  - destruct (render_calls_with_token (host_en_fr "en" None (Some "t")) None "t")
      as [H _]; [reflexivity | reflexivity |].
    apply H. reflexivity.
  - destruct (render_calls_with_token
                (host_en_fr "en" (Some plain_field) (Some "t")) None "t")
      as [_ H]; [reflexivity | reflexivity |].
    destruct (H (ctx_en_fr "en" None (Some "t")) eq_refl) as (r & Hr & _ & Hm).
    exists r. split; [exact Hr | exact (Hm eq_refl)].
Defined.

(** X13. A look-up that finds nothing or is rejected leaves the hook state
    as it was, so that data loaded earlier stays on screen; it logs the
    error and raises one alert, whose text starts with ["Error: "]. When
    it is the look-up of the mounting render that fails, the component
    stays in the loading state. *)
Theorem failed_lookup_keeps_state ctx token res h :
  (∀ asset, res ≠ Found asset) →
  (fetchAsset ctx token res h).1 = h
  ∧ (∃ error,
       (fetchAsset ctx token res h).2
       = [Call (client_find ctx token); ConsoleError error;
          Call (Alert ("Error: " +:+ error))]
       ∧ (res = FoundNothing →
          error = not_retrieved (upload_id (imageField ctx))))
  ∧ (currentUserAccessToken ctx = Some token →
     Js.truthy (Some token) = true →
     hooks (AssetLocalizationChecker ctx None) = Some h →
     view (AssetLocalizationChecker ctx (Some (fetchAsset ctx token res h).1))
     = Loading).
Proof.
  intros Hfail. destruct res as [asset| |error]; [by destruct (Hfail asset)| |].
  - simpl. split; [done|]. split; [by eexists|].
    intros Htok Ht Hmount.
    rewrite render_hooks_with_token in Hmount by (by rewrite Htok).
    injection Hmount as <-.
    rewrite render_with_token by (by rewrite Htok). done.
  - simpl. split; [done|]. split; [by eexists|].
    intros Htok Ht Hmount.
    rewrite render_hooks_with_token in Hmount by (by rewrite Htok).
    injection Hmount as <-.
    rewrite render_with_token by (by rewrite Htok). done.
Qed.

Lemma failed_lookup_keeps_state_witness :
  (fetchAsset (ctx_en_fr "en" None (Some "t")) "t" FoundNothing loaded_cat).1
  = loaded_cat
  ∧ (fetchAsset (ctx_en_fr "en" None (Some "t")) "t" FoundNothing loaded_cat).2
    = [Call (UploadsFind "t" None "42");
       ConsoleError "Error: Could not retrieve asset ID 42. Please check your console log or ask a developer for help.";
       Call (Alert "Error: Error: Could not retrieve asset ID 42. Please check your console log or ask a developer for help.")].
Proof.
  destruct (failed_lookup_keeps_state (ctx_en_fr "en" None (Some "t")) "t"
              FoundNothing loaded_cat) as (H1 & _ & _).
  - intros asset; discriminate.
  - split; [exact H1 | reflexivity].
Defined.

(** X14. A look-up that finds the asset replaces the asset of the hook
    state and nothing else, without any alert; from then on the
    reconciliation is that of the new asset, and the render shows the main
    view exactly when the new asset has a metadata map and the record has
    a list of locales, the loading state otherwise. *)
Theorem successful_lookup_shows_new_asset ctx token asset h :
  currentUserAccessToken ctx = Some token →
  Js.truthy (Some token) = true →
  let h' := (fetchAsset ctx token (Found asset) h).1 in
  let r := reconcile ctx h' in
  h' = {| assetData := Some asset;
          siteLocales := siteLocales h;
          fetchedFor := fetchedFor h |}
  ∧ (fetchAsset ctx token (Found asset) h).2 = [Call (client_find ctx token)]
  ∧ aggregates r = aggregate (default_field_metadata asset) (internalLocales ctx)
  ∧ view (AssetLocalizationChecker ctx (Some h'))
    = match default_field_metadata asset, internalLocales ctx with
      | Some _, Some _ => Main (main_view ctx h' r)
      | _, _ => Loading
      end.
Proof.
  intros Htok Ht. simpl. repeat split.
  rewrite render_with_token by (by rewrite Htok).
  destruct (default_field_metadata asset) as [md|] eqn:Hmd,
           (internalLocales ctx) as [ls|] eqn:Hls;
    unfold reconcile, isReady, metadata_of; simpl; rewrite ?Hmd, ?Hls; try done.
  all: rewrite (bool_decide_eq_false_2 (is_Some None)) by apply is_Some_None.
  all: by rewrite ?andb_false_r.
Qed.

Lemma successful_lookup_shows_new_asset_witness :
  ∃ v, view (AssetLocalizationChecker (ctx_en_fr "en" None (Some "t"))
               (Some (fetchAsset (ctx_en_fr "en" None (Some "t")) "t"
                        (Found asset_cat)
                        {| assetData := None; siteLocales := ["en"];
                           fetchedFor := "42" |}).1))
       = Main v
       ∧ missingAltSection v = Some ["fr"].
Proof.
  destruct (successful_lookup_shows_new_asset (ctx_en_fr "en" None (Some "t")) "t"
              asset_cat
              {| assetData := None; siteLocales := ["en"]; fetchedFor := "42" |}
              eq_refl eq_refl) as (_ & _ & _ & Hview).
  eexists. split; [exact Hview | reflexivity].
Defined.

(** X15. Once an asset is in the hook state, it stays: no failed look-up,
    no closed editor, no arrival of the settings and no render empties it
    again. *)
Theorem loaded_asset_is_never_dropped ctx token h h' :
  is_Some (assetData h) →
  rtc (step ctx token) h h' →
  is_Some (assetData h').
Proof.
  intros Hsome Hsteps. by apply (steps_keep ctx token h h' Hsteps).
Qed.

Lemma loaded_asset_is_never_dropped_witness :
  is_Some
    (assetData
       (editImage (ctx_en_fr "en" None (Some "t")) "t" (Some asset_cat)
          (Rejected "ApiError: 404") loaded_cat).1).
Proof.
  apply (loaded_asset_is_never_dropped (ctx_en_fr "en" None (Some "t")) "t" loaded_cat).
  - by eexists.
  - eapply rtc_l; [apply (step_editImage _ _ (Some asset_cat) (Rejected "ApiError: 404"))|].
    apply rtc_refl.
Defined.

(** ** The plugin entry points *)

(** X16. The addon that [overrideFieldExtensions] attaches, to fields of
    type [file] and to no other, is one that [renderFieldExtension]
    renders, as the component; so is the extension that the earlier
    revision declares for manual installation, for the same field types;
    and [renderFieldExtension] renders nothing for any other id. *)
Theorem offered_extension_is_rendered (field_type : string) :
  (is_Some (overrideFieldExtensions field_type) ↔ field_type = "file")
  ∧ (∀ o id ctx prev,
       overrideFieldExtensions field_type = Some o → id ∈ addons o →
       renderFieldExtension id ctx prev = Some (AssetLocalizationChecker ctx prev))
  ∧ (∀ e ctx prev,
       e ∈ manualFieldExtensions →
       renderFieldExtension (mfe_id e) ctx prev
       = Some (AssetLocalizationChecker ctx prev)
       ∧ (field_type ∈ mfe_fieldTypes e
          ↔ is_Some (overrideFieldExtensions field_type)))
  ∧ (∀ id ctx prev,
       is_Some (renderFieldExtension id ctx prev)
       → id = "assetLocalizationChecker").
Proof.
  unfold overrideFieldExtensions, renderFieldExtension.
  destruct (String.eqb_spec field_type "file") as [Hft|Hft].
  - split; [split; [done | by eexists]|]. split; [|split].
    + intros o id ctx prev [= <-] Hid%list_elem_of_singleton. by subst id.
    + intros e ctx prev He%list_elem_of_singleton. subst e; simpl.
      split; [done|]. split; [by eexists|]. intros _. subst field_type.
      by apply list_elem_of_singleton.
    + intros id ctx prev. destruct (String.eqb_spec id "assetLocalizationChecker");
        [done | by intros [? ?]].
  - split; [split; [by intros [? ?] | done]|]. split; [done|]. split.
    + intros e ctx prev He%list_elem_of_singleton. subst e; simpl.
      split; [done|]. split; [|by intros [? ?]].
      by intros ?%list_elem_of_singleton.
    + intros id ctx prev. destruct (String.eqb_spec id "assetLocalizationChecker");
        [done | by intros [? ?]].
Qed.

(** ** Field paths *)

Lemma split_without (sep : ascii) (s : string) :
  occurs sep s = false → split sep s = [s].
Proof.
  induction s as [|a s IH]; simpl; [done|].
  intros [Ha Hs]%orb_false_iff. rewrite Ha, (IH Hs). done.
Qed.

Lemma split_at (sep : ascii) (s1 s2 : string) :
  occurs sep s1 = false →
  split sep (s1 +:+ String sep s2) = s1 :: split sep s2.
Proof.
  induction s1 as [|a s1 IH]; simpl.
  - intros _. by rewrite Ascii.eqb_refl.
  - intros [Ha Hs]%orb_false_iff. rewrite Ha, (IH Hs). done.
Qed.

Lemma split_dot (field rest : string) :
  occurs "." field = false →
  split "." (field +:+ "." +:+ rest) = field :: split "." rest.
Proof. intros Hf. exact (split_at "." field rest Hf). Qed.

Section paths.
Context {V : Type} (get : V → string → option V).

(** X17. A path without a dot reads the field itself; a path made of a
    field name, a dot and a non-empty locale reads the value of the field
    and then the entry of the locale in it, and throws when either read
    does. *)
Theorem path_reads_field_then_locale (formValues : V) (field locale : string) :
  occurs "." field = false →
  occurs "." locale = false →
  locale ≠ "" →
  getMaybeLocalizedValue get formValues field = get formValues field
  ∧ getMaybeLocalizedValue get formValues (field +:+ "." +:+ locale)
    = get formValues field ≫= λ v, get v locale.
Proof.
  intros Hf Hl Hne. unfold getMaybeLocalizedValue. split.
  - by rewrite (split_without _ _ Hf).
  - rewrite (split_dot _ _ Hf), (split_without _ _ Hl). simpl.
    destruct (String.eqb_spec locale ""); done.
Qed.

(** X18. Only the first two segments of a path count: what follows a
    second dot is ignored. And an empty second segment counts as no
    locale: a path that ends in a dot reads the field itself. *)
Theorem path_extra_segments_ignored (formValues : V) (field locale rest : string) :
  occurs "." field = false →
  occurs "." locale = false →
  getMaybeLocalizedValue get formValues (field +:+ "." +:+ locale +:+ "." +:+ rest)
  = getMaybeLocalizedValue get formValues (field +:+ "." +:+ locale)
  ∧ getMaybeLocalizedValue get formValues (field +:+ ".")
    = get formValues field.
Proof.
  intros Hf Hl. unfold getMaybeLocalizedValue. split.
  - rewrite !(split_dot _ _ Hf), (split_dot _ _ Hl), (split_without _ _ Hl).
    done.
  - change (field +:+ ".") with (field +:+ "." +:+ "").
    by rewrite (split_dot _ _ Hf).
Qed.

End paths.

Lemma path_reads_field_then_locale_witness :
  getMaybeLocalizedValue tree_get form_tree "slug" = Some (TObject PNil)
  ∧ getMaybeLocalizedValue tree_get form_tree "hero.fr" = Some TNull.
Proof.
  destruct (path_reads_field_then_locale tree_get form_tree "hero" "fr")
    as [_ H2]; [reflexivity | reflexivity | discriminate |].
  destruct (path_reads_field_then_locale tree_get form_tree "slug" "fr")
    as [H1 _]; [reflexivity | reflexivity | discriminate |].
  split; [exact H1 | exact H2].
Defined.

Lemma path_extra_segments_ignored_witness :
  getMaybeLocalizedValue tree_get form_tree "hero.fr.alt" = Some TNull
  ∧ getMaybeLocalizedValue tree_get form_tree "hero." = tree_get form_tree "hero".
Proof.
  destruct (path_extra_segments_ignored tree_get form_tree "hero" "fr" "alt")
    as [H1 H2]; [reflexivity | reflexivity |].
  split; [exact (eq_trans H1 eq_refl) | exact H2].
Defined.

Section nullish_field.
Context {V : Type} (get : V → string → option V).

(** X19. When the field of a form reads as a value of which no property
    can be read, as [null] and [undefined] are, [getMaybeLocalizedValue]
    throws on the localized path of that field, where on the plain path of
    the same field it returns that value. *)
Theorem localized_path_of_nullish_field_throws
    (formValues v : V) (field locale : string) :
  occurs "." field = false →
  occurs "." locale = false →
  locale ≠ "" →
  get formValues field = Some v →
  get v locale = None →
  getMaybeLocalizedValue get formValues (field +:+ "." +:+ locale) = None
  ∧ getMaybeLocalizedValue get formValues field = Some v.
Proof.
  intros Hf Hl Hne Hv Hthrows. unfold getMaybeLocalizedValue.
  rewrite (split_dot _ _ Hf), !(split_without _ _ Hl), (split_without _ _ Hf).
  simpl. destruct (String.eqb_spec locale "") as [|_]; [done|]. simpl.
  split; [|done]. by rewrite Hv.
Qed.

End nullish_field.

Lemma localized_path_of_nullish_field_throws_witness :
  getMaybeLocalizedValue tree_get form_tree "cover.en" = None
  ∧ getMaybeLocalizedValue tree_get form_tree "cover" = Some TUndefined.
Proof.
  destruct (localized_path_of_nullish_field_throws tree_get form_tree TUndefined
              "cover" "en")
    as [H1 H2];
    [reflexivity | reflexivity | discriminate | reflexivity | reflexivity |].
  split; [exact H1 | exact H2].
Defined.

(** ** The table revision *)

Lemma has_length_truthy (text : option string) :
  Table.has_length text = Js.truthy text.
Proof. destruct text as [[|a s]|]; done. Qed.

(** X20. What a cell of the table shows is never an empty text: a cell
    that reports an override shows the field-level value, a cell that
    reports the text as fine shows the asset-level text and there is no
    override then, and a cell reports the text as missing exactly when
    both are null, undefined or empty. *)
Theorem displayText_never_shows_empty (text overrideText : option string) :
  match Table.displayText text overrideText with
  | Table.Missing => Js.truthy overrideText = false ∧ Js.truthy text = false
  | Table.OverriddenBy x => overrideText = Some x ∧ x ≠ ""
  | Table.Ok x => Js.truthy overrideText = false ∧ text = Some x ∧ x ≠ ""
  end.
Proof.
  unfold Table.displayText. rewrite has_length_truthy.
  destruct (Js.truthy overrideText) eqn:Ho; simpl.
  - apply truthy_Some in Ho as (s & -> & Hs). done.
  - destruct (Js.truthy text) eqn:Ht; simpl; [|done].
    apply truthy_Some in Ht as (s & -> & Hs). done.
Qed.

Lemma fromEntries_lookup (f : string → Table.LocaleRow) (ls : list string)
    (l : string) :
  Table.fromEntries (map (λ loc, (loc, f loc)) ls) !! l
  = if decide (l ∈ ls) then Some (f l) else None.
Proof.
  unfold Table.fromEntries.
  assert (∀ acc : gmap string Table.LocaleRow,
            fold_left (λ m e, <[e.1 := e.2]> m) (map (λ loc, (loc, f loc)) ls) acc !! l
            = if decide (l ∈ ls) then Some (f l) else acc !! l) as Hgen.
  { induction ls as [|a ls IH]; intros acc; simpl; [done|].
    rewrite IH. destruct (decide (l ∈ ls)) as [Hin|Hnin].
    - rewrite decide_True; [done | by apply elem_of_cons; right].
    - destruct (decide (a = l)) as [->|Hne].
      + rewrite lookup_insert_eq.
        rewrite decide_True; [done | by apply elem_of_cons; left].
      + rewrite lookup_insert_ne by done.
        rewrite decide_False; [done|].
        intros [->|?]%elem_of_cons; done. }
  rewrite Hgen. by case_decide.
Qed.

(** The callback of the memo throws exactly on a locale that has no entry
    and does not name an inherited member; otherwise it gives the row of
    the asset-level texts. *)
Lemma table_entry_None displayName md l :
  Table.entry displayName md l = None ↔ md !! l = None ∧ inherited l = false.
Proof.
  unfold Table.entry. destruct (md !! l); [by split; [|intros [? ?]]|].
  destruct (inherited l); by split; [|intros [? ?]].
Qed.

Lemma table_entry_Some displayName md l :
  is_Some (Table.entry displayName md l) →
  Table.entry displayName md l
  = Some (l, {| Table.code := l;
                Table.label := humanReadableLocale displayName l;
                Table.alt := asset_alt md l;
                Table.title := asset_title md l |}).
Proof.
  unfold Table.entry, asset_alt, asset_title.
  destruct (md !! l); [done|]. destruct (inherited l); [done|].
  by intros [? ?].
Qed.

Lemma table_entries displayName md ls :
  Forall (λ l, is_Some (Table.entry displayName md l)) ls →
  mapM (Table.entry displayName md) ls
  = Some (map (λ loc, (loc, {| Table.code := loc;
                               Table.label := humanReadableLocale displayName loc;
                               Table.alt := asset_alt md loc;
                               Table.title := asset_title md loc |})) ls).
Proof.
  intros Hall. apply mapM_Some_2.
  induction Hall as [|a ls Ha _ IH]; simpl; constructor; [|done].
  by apply table_entry_Some.
Qed.

Lemma table_metadataByLocale_None displayName fetched locales md :
  metadata_of fetched = Some md →
  Table.metadataByLocale displayName fetched locales = None
  ↔ locales = None
    ∨ ∃ ls l, locales = Some ls ∧ l ∈ ls ∧ md !! l = None ∧ inherited l = false.
Proof.
  intros Hmd. unfold Table.metadataByLocale. rewrite Hmd.
  destruct locales as [ls|]; simpl; [|split; [by left | done]].
  destruct (mapM (Table.entry displayName md) ls) as [entries|] eqn:Hm; simpl.
  - split; [done|]. intros [? | (ls' & l & Hls & Hl & Hnone)]; [done|].
    injection Hls as <-.
    assert (mapM (Table.entry displayName md) ls = None) as Hn; [|congruence].
    apply mapM_None, Exists_exists. exists l. split; [done|].
    by apply table_entry_None.
  - split; [intros _|done]. right.
    apply mapM_None, Exists_exists in Hm as (l & Hl & Hnone).
    exists ls, l. split; [done|]. split; [done|].
    by apply table_entry_None in Hnone.
Qed.

(** The rows of the table, read back from the object of the memo. *)
Lemma table_rows displayName ctx md ls :
  mapM (Table.row ctx
          (Table.fromEntries
             (map (λ loc, (loc, {| Table.code := loc;
                                   Table.label := humanReadableLocale displayName loc;
                                   Table.alt := asset_alt md loc;
                                   Table.title := asset_title md loc |})) ls)))
    ls
  = Some (map (λ loc,
                 {| Table.locName := humanReadableLocale displayName loc;
                    Table.isCurrent := bool_decide (loc = locale ctx);
                    Table.titleCell :=
                      Table.displayText (asset_title md loc) (title (imageField ctx));
                    Table.altCell :=
                      Table.displayText (asset_alt md loc) (alt (imageField ctx)) |})
            ls).
Proof.
  apply mapM_Some_2.
  apply Forall2_fmap_r, Forall_Forall2_diag, Forall_forall. intros l Hl.
  unfold Table.row.
  rewrite (fromEntries_lookup
             (λ loc, {| Table.code := loc;
                        Table.label := humanReadableLocale displayName loc;
                        Table.alt := asset_alt md loc;
                        Table.title := asset_title md loc |})).
  by rewrite decide_True.
Qed.

(** Past the token and the destructuring, the table revision either
    throws in the memo or renders. *)
Lemma table_render_with_field displayName hc ctx fetched :
  Js.truthy (rf_currentUserAccessToken hc) = true →
  destructure hc = Some ctx →
  Table.AssetLocalizationChecker displayName hc fetched
  = match metadata_of fetched with
    | None => Some Table.Loading
    | Some md =>
        match internalLocales ctx with
        | None => None
        | Some ls =>
            if decide (Forall (λ l, is_Some (Table.entry displayName md l)) ls)
            then Some (Table.Rows (isTitleRequired ctx) (isAltRequired ctx)
                         (map (λ loc,
                                 {| Table.locName := humanReadableLocale displayName loc;
                                    Table.isCurrent := bool_decide (loc = locale ctx);
                                    Table.titleCell :=
                                      Table.displayText (asset_title md loc)
                                        (title (imageField ctx));
                                    Table.altCell :=
                                      Table.displayText (asset_alt md loc)
                                        (alt (imageField ctx)) |})
                            ls))
            else None
        end
    end.
Proof.
  intros Ht Hd. unfold Table.AssetLocalizationChecker. rewrite Ht, Hd. simpl.
  unfold Table.metadataByLocale.
  destruct (metadata_of fetched) as [md|] eqn:Hmd; simpl.
  - destruct (internalLocales ctx) as [ls|] eqn:Hls; simpl; [|done].
    case_decide as Hall.
    + rewrite (table_entries displayName md ls Hall). simpl.
      assert (isReady fetched (Some ls) = true) as ->.
      { destruct (isReady fetched (Some ls)) eqn:Hr; [done|].
        apply isReady_false in Hr as [-> | [Hn | Hn]]; [done | congruence | done]. }
      simpl. by rewrite (table_rows displayName ctx md ls).
    + assert (mapM (Table.entry displayName md) ls = None) as ->; [|done].
      apply eq_None_not_Some. intros Hsome. apply Hall.
      by apply mapM_is_Some_1.
  - by rewrite (proj2 (isReady_false fetched (internalLocales ctx)))
      by (destruct fetched; eauto).
Qed.



(** X22. In the table revision, with a token, a field that holds a value,
    a loaded asset and an entry for every record locale, the table has one
    row per record locale, in the order of the record; the cells of a row
    are [displayText] of the asset-level title and alt of that locale
    against the field-level ones, and the row of the current locale is
    marked. *)
Theorem table_revision_rows displayName hc ctx fetched md ls :
  Js.truthy (rf_currentUserAccessToken hc) = true →
  destructure hc = Some ctx →
  metadata_of fetched = Some md →
  rf_internalLocales hc = Some ls →
  (∀ l, l ∈ ls → is_Some (md !! l)) →
  Table.AssetLocalizationChecker displayName hc fetched
  = Some (Table.Rows (isTitleRequired ctx) (isAltRequired ctx)
            (map (λ loc,
                    {| Table.locName := humanReadableLocale displayName loc;
                       Table.isCurrent := bool_decide (loc = locale ctx);
                       Table.titleCell :=
                         Table.displayText (asset_title md loc)
                           (title (imageField ctx));
                       Table.altCell :=
                         Table.displayText (asset_alt md loc)
                           (alt (imageField ctx)) |})
               ls)).
Proof.
  intros Ht Hd Hmd Hls Hall.
  destruct (destructure_Some hc ctx Hd) as (_ & _ & Hcls & _).
  rewrite (table_render_with_field displayName hc ctx fetched Ht Hd).
  rewrite Hmd, Hcls, Hls. rewrite decide_True; [done|].
  apply Forall_forall. intros l Hl. destruct (Hall l Hl) as [e He].
  unfold Table.entry. rewrite He. by eexists.
Qed.

Lemma table_revision_rows_witness :
  Table.AssetLocalizationChecker (λ _, None)
    (host_en_fr "fr" (Some plain_field) (Some "t")) (Some asset_cat)
  = Some (Table.Rows false false
            [ {| Table.locName := "en"; Table.isCurrent := false;
                 Table.titleCell := Table.Missing; Table.altCell := Table.Ok "cat" |};
              {| Table.locName := "fr"; Table.isCurrent := true;
                 Table.titleCell := Table.Missing; Table.altCell := Table.Missing |} ]).
Proof.
  rewrite (table_revision_rows (λ _, None)
             (host_en_fr "fr" (Some plain_field) (Some "t"))
             (ctx_en_fr "fr" None (Some "t")) (Some asset_cat) md_cat ["en"; "fr"]).
  - reflexivity.
  - reflexivity.
  - reflexivity.
  - reflexivity.
  - reflexivity.
  - intros l Hl. apply elem_of_cons in Hl as [-> | Hl]; [by eexists|].
    apply list_elem_of_singleton in Hl as ->. by eexists.
Defined.

(** ** The revisions side by side *)

(** X23. For a loaded asset and a current locale that is a record locale,
    the line of the current revision for the alt (resp. title) of the
    current locale says what the cell of the table revision says for that
    locale, kind and text, unless the field-level alt (resp. title) is the
    empty string. *)
Theorem current_line_agrees_with_table_cell ctx h md ls :
  metadata_of (assetData h) = Some md →
  internalLocales ctx = Some ls →
  locale ctx ∈ ls →
  let v := main_view ctx h (reconcile ctx h) in
  (alt (imageField ctx) ≠ Some "" →
   line_as_cell (altLine v)
   = Table.displayText (asset_alt md (locale ctx)) (alt (imageField ctx)))
  ∧ (title (imageField ctx) ≠ Some "" →
     line_as_cell (titleLine v)
     = Table.displayText (asset_title md (locale ctx)) (title (imageField ctx))).
Proof.
  intros Hmd Hls Hin. unfold main_view. cbn [altLine titleLine].
  rewrite (reconcile_current ctx h md ls Hmd Hls Hin).
  cbn [isMissingAlt isMissingTitle actualAlt actualTitle].
  assert (∀ name required (fieldLevel assetLevel : option string),
            fieldLevel ≠ Some "" →
            line_as_cell
              (currentLocaleChecker ctx h name (fieldLevel ?? assetLevel ??! "")
                 (negb (Js.truthy fieldLevel) && negb (Js.truthy assetLevel))
                 required (isFieldLevel fieldLevel))
            = Table.displayText assetLevel fieldLevel) as Hgen.
  { intros name required fieldLevel assetLevel Hne.
    unfold currentLocaleChecker, Table.displayText, isFieldLevel.
    rewrite has_length_truthy.
    destruct (Js.truthy fieldLevel) eqn:Hf; simpl.
    - apply truthy_Some in Hf as (s & -> & _). done.
    - apply falsy_not_empty in Hf as ->; [|done]. simpl.
      destruct (Js.truthy assetLevel); simpl; [done | by destruct required]. }
  split; intros Hne; by apply Hgen.
Qed.

Lemma current_line_agrees_with_table_cell_witness :
  line_as_cell
    (altLine (main_view (ctx_en_fr "en" (Some "override") (Some "t")) loaded_cat
                (reconcile (ctx_en_fr "en" (Some "override") (Some "t")) loaded_cat)))
  = Table.OverriddenBy "override".
Proof.
  destruct (current_line_agrees_with_table_cell
              (ctx_en_fr "en" (Some "override") (Some "t")) loaded_cat
              md_cat ["en"; "fr"]) as [H _].
  - reflexivity.
  - reflexivity.
  - apply elem_of_cons; left. reflexivity.
  - rewrite H; [reflexivity | discriminate].
Defined.

(** On the empty field-level alt the two revisions part: the table shows
    the asset-level text, the current revision an empty one. *)
Lemma revisions_part_on_empty_override :
  line_as_cell
    (altLine (main_view (ctx_en_fr "en" (Some "") (Some "t")) loaded_cat
                (reconcile (ctx_en_fr "en" (Some "") (Some "t")) loaded_cat)))
  = Table.Ok ""
  ∧ Table.displayText (asset_alt md_cat "en") (Some "") = Table.Ok "cat".
Proof. split; reflexivity. Qed.

(** X24. The list of the earlier revision has one element per record
    locale, in the order of the record, each holding the asset-level alt
    and title of its locale; and its lists of missing alts and titles are
    made of such elements. *)
Theorem earlier_rows_follow_record_locales
    (md : gmap string FieldMetadata) (ls : list string) :
  let rows := Earlier.metadataByLocale (Some md) (Some ls) in
  map Earlier.locale rows = ls
  ∧ (∀ row, row ∈ rows ∨ row ∈ Earlier.missingAlts rows
            ∨ row ∈ Earlier.missingTitles rows →
       Earlier.locale row ∈ ls
       ∧ Earlier.alt row = asset_alt md (Earlier.locale row)
       ∧ Earlier.title row = asset_title md (Earlier.locale row)).
Proof.
  simpl.
  assert (∀ row, row ∈ flat_map
                         (λ loc, [ {| Earlier.locale := loc;
                                      Earlier.alt := asset_alt md loc;
                                      Earlier.title := asset_title md loc |} ]) ls →
            Earlier.locale row ∈ ls
            ∧ Earlier.alt row = asset_alt md (Earlier.locale row)
            ∧ Earlier.title row = asset_title md (Earlier.locale row)) as Hrow.
  { intros row Hin. apply list_elem_of_In, in_flat_map in Hin as (loc & Hloc & Hin).
    apply list_elem_of_In in Hloc.
    destruct Hin as [<- | []]. done. }
  split.
  - induction ls as [|l ls IH]; simpl; [done|]. f_equal. apply IH.
    intros row Hin. destruct (Hrow row) as (H1 & H2 & H3).
    + simpl. by apply elem_of_cons; right.
    + rewrite H2, H3. repeat split.
      simpl in Hin. apply list_elem_of_In, in_flat_map in Hin as (loc & Hloc & Hin).
      destruct Hin as [<- | []]. by apply list_elem_of_In.
  - intros row [Hin | [Hin | Hin]].
    + by apply Hrow.
    + apply elem_of_filter_bool in Hin as [Hin _]. by apply Hrow.
    + apply elem_of_filter_bool in Hin as [Hin _]. by apply Hrow.
Qed.
